(** * ProdFlow 3D: the machine store, the simulator and the push feed adapter

    A shallow embedding of [src/store/machineStore.ts] (the zustand store),
    [src/hooks/useSimulation.ts] (the simulator hook) and the
    [ProductionWebSocket] class of [src/api/productionApi.ts], followed by
    the properties of the store contract.

    Conventions of the embedding.
    - A JavaScript [number] is an exact rational ([Q]): no NaN, no
      infinities, no rounding.  The constant [0.3] is [3/10].
    - A JavaScript array is a [list]; [map], [filter], [find], [some] are
      the list functions of the same name.
    - [string | null] is [option string]; an optional field [f?: T] is
      [option T].
    - [Date.now()] and [Math.random()] are inputs of the environment: an
      operation that calls them takes what they returned as an argument. *)

From Stdlib Require Import List String Ascii ZArith QArith Qround Qminmax.
From Stdlib Require Import Bool Arith Lia Lqa DecimalString DecimalN.
Import ListNotations.

Open Scope string_scope.

(* ===================================================================== *)
(** ** Entity model ([src/types/machine.ts])                              *)
(* ===================================================================== *)

Inductive MachineStatus : Type := active | idle | stopped | maintenance.

Inductive MachineType : Type := conveyor | processor | packer | quality.

Definition Position : Type := (Q * Q * Q)%type.

Record Machine : Type := mkMachine {
  id : string;
  name : string;
  status : MachineStatus;
  throughput : Q;
  position : Position;
  type : option MachineType;
  description : option string
}.

(** The [id] field of a connection is [cid] here: one name space holds
    both records. *)
Record Connection : Type := mkConnection {
  cid : string;
  fromMachineId : string;
  toMachineId : string;
  flowRate : option Q
}.

(** [Omit<Machine, 'id'>]: the argument of [addMachine]. *)
Record MachineInit : Type := mkMachineInit {
  i_name : string;
  i_status : MachineStatus;
  i_throughput : Q;
  i_position : Position;
  i_type : option MachineType;
  i_description : option string
}.

(** [Partial<Machine>]: every key may be absent ([None]).  For the two
    optional fields a present key may carry [undefined] ([Some None]). *)
Record MachinePartial : Type := mkMachinePartial {
  p_id : option string;
  p_name : option string;
  p_status : option MachineStatus;
  p_throughput : option Q;
  p_position : option Position;
  p_type : option (option MachineType);
  p_description : option (option string)
}.

Definition noUpdates : MachinePartial :=
  mkMachinePartial None None None None None None None.

(** One record of a feed batch: [{ id, status, throughput }]. *)
Record ProductionRecord : Type := mkProductionRecord {
  r_id : string;
  r_status : MachineStatus;
  r_throughput : Q
}.

(** The data part of [MachineState]. *)
Record MachineState : Type := mkState {
  machines : list Machine;
  connections : list Connection;
  selectedMachineId : option string
}.

(* ===================================================================== *)
(** ** Object spread and small helpers                                    *)
(* ===================================================================== *)

Definition orElse {A : Type} (o : option A) (d : A) : A :=
  match o with Some a => a | None => d end.

(** [{ ...m, ...updates }] *)
Definition spreadUpdates (m : Machine) (updates : MachinePartial) : Machine :=
  {| id := orElse (p_id updates) (id m);
     name := orElse (p_name updates) (name m);
     status := orElse (p_status updates) (status m);
     throughput := orElse (p_throughput updates) (throughput m);
     position := orElse (p_position updates) (position m);
     type := orElse (p_type updates) (type m);
     description := orElse (p_description updates) (description m) |}.

(** [{ ...m, status }] *)
Definition withStatus (m : Machine) (s : MachineStatus) : Machine :=
  {| id := id m; name := name m; status := s; throughput := throughput m;
     position := position m; type := type m; description := description m |}.

(** [{ ...m, throughput }] *)
Definition withThroughput (m : Machine) (t : Q) : Machine :=
  {| id := id m; name := name m; status := status m; throughput := t;
     position := position m; type := type m; description := description m |}.

(** [{ ...m, status: update.status, throughput: update.throughput }] *)
Definition withRecord (m : Machine) (update : ProductionRecord) : Machine :=
  {| id := id m; name := name m; status := r_status update;
     throughput := r_throughput update;
     position := position m; type := type m; description := description m |}.

(** [{ ...machine, id }] *)
Definition withId (machine : MachineInit) (newId : string) : Machine :=
  {| id := newId; name := i_name machine; status := i_status machine;
     throughput := i_throughput machine; position := i_position machine;
     type := i_type machine; description := i_description machine |}.

(** [selectedMachineId === id] where the left side may be [null]. *)
Definition selectedIs (sel : option string) (i : string) : bool :=
  match sel with Some s => String.eqb s i | None => false end.

(* ===================================================================== *)
(** ** Generated identifiers                                              *)
(* ===================================================================== *)

(** What the environment returned to one id generation: [now] is
    [Date.now()], [suffix] is [Math.random().toString(36).substr(2, 9)]. *)
Record IdSeed : Type := mkIdSeed {
  now : N;
  suffix : string
}.

Definition decimal (n : N) : string := NilEmpty.string_of_uint (N.to_uint n).

(** [`machine-${Date.now()}-${Math.random().toString(36).substr(2, 9)}`] *)
Definition machineId (e : IdSeed) : string :=
  "machine-" ++ decimal (now e) ++ "-" ++ suffix e.

(** [`conn-${Date.now()}-${Math.random().toString(36).substr(2, 9)}`] *)
Definition connectionId (e : IdSeed) : string :=
  "conn-" ++ decimal (now e) ++ "-" ++ suffix e.

(* ===================================================================== *)
(** ** The store ([useMachineStore])                                      *)
(* ===================================================================== *)

Definition initialState : MachineState := mkState [] [] None.

Definition addMachine (e : IdSeed) (machine : MachineInit)
    (state : MachineState) : MachineState :=
  let newId := machineId e in
  {| machines := machines state ++ [withId machine newId];
     connections := connections state;
     selectedMachineId := selectedMachineId state |}.

Definition updateMachine (i : string) (updates : MachinePartial)
    (state : MachineState) : MachineState :=
  {| machines :=
       map (fun m => if String.eqb (id m) i then spreadUpdates m updates else m)
           (machines state);
     connections := connections state;
     selectedMachineId := selectedMachineId state |}.

Definition deleteMachine (i : string) (state : MachineState) : MachineState :=
  {| machines := filter (fun m => negb (String.eqb (id m) i)) (machines state);
     connections :=
       filter (fun c => negb (String.eqb (fromMachineId c) i)
                        && negb (String.eqb (toMachineId c) i))
              (connections state);
     selectedMachineId :=
       if selectedIs (selectedMachineId state) i then None
       else selectedMachineId state |}.

Definition selectMachine (i : option string) (state : MachineState)
    : MachineState :=
  {| machines := machines state;
     connections := connections state;
     selectedMachineId := i |}.

Definition addConnection (e : IdSeed) (fromId toId : string)
    (state : MachineState) : MachineState :=
  if String.eqb fromId toId then state
  else
    let exists_ :=
      existsb (fun c => String.eqb (fromMachineId c) fromId
                        && String.eqb (toMachineId c) toId)
              (connections state) in
    if exists_ then state
    else
      let newId := connectionId e in
      {| machines := machines state;
         connections :=
           connections state ++ [mkConnection newId fromId toId None];
         selectedMachineId := selectedMachineId state |}.

Definition deleteConnection (i : string) (state : MachineState)
    : MachineState :=
  {| machines := machines state;
     connections :=
       filter (fun c => negb (String.eqb (cid c) i)) (connections state);
     selectedMachineId := selectedMachineId state |}.

Definition updateMachineStatus (i : string) (s : MachineStatus)
    (state : MachineState) : MachineState :=
  {| machines :=
       map (fun m => if String.eqb (id m) i then withStatus m s else m)
           (machines state);
     connections := connections state;
     selectedMachineId := selectedMachineId state |}.

Definition updateMachineThroughput (i : string) (t : Q)
    (state : MachineState) : MachineState :=
  {| machines :=
       map (fun m => if String.eqb (id m) i then withThroughput m t else m)
           (machines state);
     connections := connections state;
     selectedMachineId := selectedMachineId state |}.

(** [data.find((d) => d.id === m.id)] is [find]: the first match. *)
Definition reconcile (data : list ProductionRecord) (m : Machine) : Machine :=
  match find (fun d => String.eqb (r_id d) (id m)) data with
  | Some update => withRecord m update
  | None => m
  end.

Definition batchUpdateFromProductionData (data : list ProductionRecord)
    (state : MachineState) : MachineState :=
  {| machines := map (reconcile data) (machines state);
     connections := connections state;
     selectedMachineId := selectedMachineId state |}.

Definition initialMachines : list Machine :=
  [ mkMachine "machine-001" "Raw Material Feeder" active 120
      (-6, 0, -4) (Some conveyor) (Some "Feeder untuk bahan baku awal");
    mkMachine "machine-002" "Pre-Processor A" active 115
      (-2, 0, -4) (Some processor) (Some "Pra-pemrosesan bahan");
    mkMachine "machine-003" "Main Processor" active 110
      (2, 0, -4) (Some processor) (Some "Unit pemrosesan utama");
    mkMachine "machine-004" "Quality Control" idle 0
      (6, 0, -4) (Some quality) (Some "Pemeriksaan kualitas");
    mkMachine "machine-005" "Packaging Unit" active 105
      (6, 0, 0) (Some packer) (Some "Unit pengemasan");
    mkMachine "machine-006" "Secondary Feeder" stopped 0
      (-6, 0, 0) (Some conveyor) (Some "Feeder sekunder");
    mkMachine "machine-007" "Auxiliary Processor" maintenance 0
      (-2, 0, 0) (Some processor) (Some "Processor bantuan");
    mkMachine "machine-008" "Final Inspection" active 100
      (2, 0, 0) (Some quality) (Some "Inspeksi akhir") ]%Q.

Definition initialConnections : list Connection :=
  [ mkConnection "conn-001" "machine-001" "machine-002" None;
    mkConnection "conn-002" "machine-002" "machine-003" None;
    mkConnection "conn-003" "machine-003" "machine-004" None;
    mkConnection "conn-004" "machine-004" "machine-005" None;
    mkConnection "conn-005" "machine-006" "machine-007" None;
    mkConnection "conn-006" "machine-007" "machine-008" None;
    mkConnection "conn-007" "machine-008" "machine-003" None ].

(** [set({ machines, connections })]: the selection is not touched. *)
Definition loadInitialData (state : MachineState) : MachineState :=
  {| machines := initialMachines;
     connections := initialConnections;
     selectedMachineId := selectedMachineId state |}.

(** The store operations as commands, for sequences of calls. *)
Inductive Op : Type :=
| OpAddMachine (e : IdSeed) (machine : MachineInit)
| OpUpdateMachine (i : string) (updates : MachinePartial)
| OpDeleteMachine (i : string)
| OpSelectMachine (i : option string)
| OpAddConnection (e : IdSeed) (fromId toId : string)
| OpDeleteConnection (i : string)
| OpUpdateMachineStatus (i : string) (s : MachineStatus)
| OpUpdateMachineThroughput (i : string) (t : Q)
| OpBatchUpdate (data : list ProductionRecord).

Definition applyOp (op : Op) (state : MachineState) : MachineState :=
  match op with
  | OpAddMachine e machine => addMachine e machine state
  | OpUpdateMachine i updates => updateMachine i updates state
  | OpDeleteMachine i => deleteMachine i state
  | OpSelectMachine i => selectMachine i state
  | OpAddConnection e fromId toId => addConnection e fromId toId state
  | OpDeleteConnection i => deleteConnection i state
  | OpUpdateMachineStatus i s => updateMachineStatus i s state
  | OpUpdateMachineThroughput i t => updateMachineThroughput i t state
  | OpBatchUpdate data => batchUpdateFromProductionData data state
  end.

(** Calls are applied in the order received. *)
Definition applyOps (ops : list Op) (state : MachineState) : MachineState :=
  fold_left (fun st op => applyOp op st) ops state.

(* ===================================================================== *)
(** ** The simulator ([useSimulation])                                    *)
(* ===================================================================== *)

Record SimulationConfig : Type := mkConfig {
  updateInterval : Q;
  fluctuationRange : Q
}.

Definition defaultConfig : SimulationConfig :=
  {| updateInterval := 2000; fluctuationRange := 10 |}.

(** [Partial<SimulationConfig>] and [{ ...defaultConfig, ...config }]. *)
Definition finalConfig (config : option Q * option Q) : SimulationConfig :=
  {| updateInterval := orElse (fst config) (updateInterval defaultConfig);
     fluctuationRange := orElse (snd config) (fluctuationRange defaultConfig) |}.

(** The configuration [App] passes to the hook. *)
Definition appConfig : SimulationConfig :=
  finalConfig (Some 1500, Some 15)%Q.

(** [x < y] on numbers, as a boolean. *)
Definition Qltb (x y : Q) : bool := negb (Qle_bool y x).

(** [Math.floor] *)
Definition floor (x : Q) : Q := inject_Z (Qfloor x).

(** What a tick runs in: the store, and how many times [Math.random()] has
    been called so far. *)
Record World : Type := mkWorld {
  store : MachineState;
  drawn : nat
}.

(** Code that reads and writes the world and returns an [A]. *)
Definition Sim (A : Type) : Type := World -> A * World.

Definition ret {A : Type} (a : A) : Sim A := fun w => (a, w).

Definition bind {A B : Type} (c : Sim A) (k : A -> Sim B) : Sim B :=
  fun w => let (a, w') := c w in k a w'.

Declare Scope sim_scope.
Delimit Scope sim_scope with sim.
Notation "x <- c ;; k" := (bind c (fun x => k))
  (at level 61, c at next level, right associativity) : sim_scope.
Notation "c ;;; k" := (bind c (fun _ => k))
  (at level 61, right associativity) : sim_scope.

(** A call of a store operation. *)
Definition call (f : MachineState -> MachineState) : Sim unit :=
  fun w => (tt, {| store := f (store w); drawn := drawn w |}).

(** [array.forEach(body)] *)
Fixpoint forEach {A : Type} (l : list A) (body : A -> Sim unit) : Sim unit :=
  match l with
  | [] => ret tt
  | a :: l' => (body a ;;; forEach l' body)%sim
  end.

Section Simulation.

(** [random k] is what the [k]-th call of [Math.random()] returns. *)
Variable random : nat -> Q.

Variable config : SimulationConfig.

Definition mathRandom : Sim Q :=
  fun w => (random (drawn w), {| store := store w; drawn := S (drawn w) |}).

Definition generateRandomStatus : Sim MachineStatus :=
  (rand <- mathRandom ;;
   ret (if Qltb (85 # 100) rand then maintenance
        else if Qltb (7 # 10) rand then idle
        else if Qltb (6 # 10) rand then stopped
        else active))%sim.

(** Lines 50-55: the throughput fluctuation.  [machine] is the element
    of the captured [machines] array. *)
Definition fluctuate (machine : Machine) : Sim unit :=
  match status machine with
  | active =>
      (r <- mathRandom ;;
       let fluctuation :=
         floor (r * fluctuationRange config * 2) - fluctuationRange config in
       let newThroughput := Qmax 0 (throughput machine + fluctuation) in
       call (updateMachineThroughput (id machine) newThroughput))%sim
  | _ => ret tt
  end.

(** The body of the [forEach] callback, lines 32-55. *)
Definition simulateMachine (machine : Machine) : Sim unit :=
  (r <- mathRandom ;;
   if Qltb r (1 # 10) then
     newStatus <- generateRandomStatus ;;
     call (updateMachineStatus (id machine) newStatus) ;;;
     match newStatus with
     | stopped | maintenance =>
         call (updateMachineThroughput (id machine) 0)
     | idle =>
         call (updateMachineThroughput (id machine)
                 (floor (throughput machine * (3 # 10))))
     | active => fluctuate machine
     end
   else fluctuate machine)%sim.

(** [simulateStep]: [capturedMachines] is the [machines] array the
    closure captured when the hook rendered; the store operations act on
    the store of the world. *)
Definition simulateStep (capturedMachines : list Machine) : Sim unit :=
  forEach capturedMachines simulateMachine.

(** The world after one tick. *)
Definition tick (capturedMachines : list Machine) (w : World) : World :=
  snd (simulateStep capturedMachines w).

(** One tick of a closure that captured the store as it is now. *)
Definition tickFresh (w : World) : World := tick (machines (store w)) w.

(** [setInterval(simulateStep, ...)] keeps calling the closure it was
    given: [n] ticks, all with the array captured at the start. *)
Fixpoint runInterval (n : nat) (capturedMachines : list Machine)
    (w : World) : World :=
  match n with
  | O => w
  | S n' => runInterval n' capturedMachines (tick capturedMachines w)
  end.

(** A run of the simulator from [w0], as the worlds it went through, the
    latest first.  Each tick runs a [simulateStep] closure; its captured
    array is the machine list of the store at some render, that is, of a
    world the run has already been in. *)
Inductive simulatorRun (w0 : World) : list World -> Prop :=
| run_start : simulatorRun w0 [w0]
| run_tick : forall (w seen : World) (past : list World),
    simulatorRun w0 (w :: past) ->
    In seen (w :: past) ->
    simulatorRun w0 (tick (machines (store seen)) w :: w :: past).

End Simulation.

(** The [Math.random()] that returns the numbers of [l] in order, and
    [1/2] after them. *)
Definition drawsOf (l : list Q) (k : nat) : Q := nth k l (1 # 2).

(** Every machine of the store has a throughput of at least 0. *)
Definition throughputFloor (state : MachineState) : Prop :=
  Forall (fun m => 0 <= throughput m) (machines state).

(* ===================================================================== *)
(** ** The push feed adapter ([ProductionWebSocket])                      *)
(* ===================================================================== *)

(** The fields of the object.  [ws] holds the handle of the socket or
    [null]; the two callbacks are passed to the constructor and never
    change, they show only as effects. *)
Record ProductionWebSocket : Type := mkSocketClient {
  ws : option nat;
  reconnectInterval : N;
  reconnectAttempts : nat;
  maxReconnectAttempts : nat
}.

(** The field initialisers of the class. *)
Definition newProductionWebSocket : ProductionWebSocket :=
  {| ws := None;
     reconnectInterval := 3000;
     reconnectAttempts := 0;
     maxReconnectAttempts := 5 |}.

(** What a method does to the outside. *)
Inductive Effect : Type :=
| NewWebSocket (handle : nat)
| CloseSocket (handle : nat)
| SetTimeoutConnect (delay : N)
| ConsoleLog (message : string)
| ConsoleError (message : string)
| OnDataCallback
| OnErrorCallback
| SocketSend.

Definition Method : Type :=
  ProductionWebSocket -> ProductionWebSocket * list Effect.

(** [connect()]; [handle] is the socket [new WebSocket(wsUrl)] returns. *)
Definition connect (handle : nat) : Method :=
  fun this =>
    ({| ws := Some handle;
        reconnectInterval := reconnectInterval this;
        reconnectAttempts := reconnectAttempts this;
        maxReconnectAttempts := maxReconnectAttempts this |},
     [NewWebSocket handle]).

Definition onopen : Method :=
  fun this =>
    ({| ws := ws this;
        reconnectInterval := reconnectInterval this;
        reconnectAttempts := 0;
        maxReconnectAttempts := maxReconnectAttempts this |},
     [ConsoleLog "WebSocket connected"]).

(** [parsed] tells whether [JSON.parse(event.data)] returned. *)
Definition onmessage (parsed : bool) : Method :=
  fun this =>
    (this, if parsed then [OnDataCallback]
           else [ConsoleError "Failed to parse WebSocket message:"]).

Definition onerror : Method :=
  fun this => (this, [ConsoleError "WebSocket error:"; OnErrorCallback]).

Definition attemptReconnect : Method :=
  fun this =>
    if Nat.ltb (reconnectAttempts this) (maxReconnectAttempts this) then
      let attempts := S (reconnectAttempts this) in
      ({| ws := ws this;
          reconnectInterval := reconnectInterval this;
          reconnectAttempts := attempts;
          maxReconnectAttempts := maxReconnectAttempts this |},
       [ConsoleLog ("Attempting to reconnect... ("
                    ++ decimal (N.of_nat attempts) ++ "/"
                    ++ decimal (N.of_nat (maxReconnectAttempts this)) ++ ")");
        SetTimeoutConnect (reconnectInterval this)])
    else
      (this, [ConsoleError "Max reconnection attempts reached"]).

Definition onclose : Method :=
  fun this =>
    let (this', effects) := attemptReconnect this in
    (this', ConsoleLog "WebSocket disconnected" :: effects).

Definition disconnect : Method :=
  fun this =>
    ({| ws := None;
        reconnectInterval := reconnectInterval this;
        reconnectAttempts := reconnectAttempts this;
        maxReconnectAttempts := maxReconnectAttempts this |},
     match ws this with Some h => [CloseSocket h] | None => [] end).

(** [isOpen] is [this.ws?.readyState === WebSocket.OPEN]. *)
Definition send (isOpen : bool) : Method :=
  fun this => (this, if isOpen then [SocketSend] else []).

(** What can happen to the object: a call of a public method from outside,
    a reconnect timer that fires, or an event of one of its sockets. *)
Inductive Event : Type :=
| CallConnect (handle : nat)
| CallDisconnect
| CallSend (isOpen : bool)
| TimerFires (handle : nat)
| SocketOpen
| SocketMessage (parsed : bool)
| SocketError
| SocketClose.

Definition handle (ev : Event) : Method :=
  match ev with
  | CallConnect h => connect h
  | CallDisconnect => disconnect
  | CallSend isOpen => send isOpen
  | TimerFires h => connect h
  | SocketOpen => onopen
  | SocketMessage parsed => onmessage parsed
  | SocketError => onerror
  | SocketClose => onclose
  end.

(** The events in order; the effects are collected in order. *)
Fixpoint runEvents (evs : list Event) (this : ProductionWebSocket)
    : ProductionWebSocket * list Effect :=
  match evs with
  | [] => (this, [])
  | ev :: evs' =>
      let (this1, effects1) := handle ev this in
      let (this2, effects2) := runEvents evs' this1 in
      (this2, (effects1 ++ effects2)%list)
  end.

Definition isReconnect (e : Effect) : bool :=
  match e with SetTimeoutConnect _ => true | _ => false end.

(** How many reconnect attempts a list of effects schedules. *)
Definition scheduledReconnects (effects : list Effect) : nat :=
  List.length (filter isReconnect effects).




(* ===================================================================== *)
(** ** Derived notions used by the statements                             *)
(* ===================================================================== *)

(** The ids of the machines of the store, in order. *)
Definition machineIds (state : MachineState) : list string :=
  map id (machines state).

(** The selection is empty or the id of a machine of the store. *)
Definition selectionValid (state : MachineState) : Prop :=
  match selectedMachineId state with
  | None => True
  | Some i => In i (machineIds state)
  end.

(** [c] goes from [a] to [b]. *)
Definition joins (a b : string) (c : Connection) : bool :=
  String.eqb (fromMachineId c) a && String.eqb (toMachineId c) b.

(** The ordered pair a connection stands for. *)
Definition endpoints (c : Connection) : string * string :=
  (fromMachineId c, toMachineId c).

(** How many connections of the store go from [a] to [b]. *)
Definition connectionsBetween (a b : string) (state : MachineState) : nat :=
  List.length (filter (joins a b) (connections state)).

(** [c] has [i] as an endpoint. *)
Definition references (i : string) (c : Connection) : Prop :=
  fromMachineId c = i \/ toMachineId c = i.

(** A sequence of [addMachine] calls. *)
Definition addMachines (calls : list (IdSeed * MachineInit))
    (state : MachineState) : MachineState :=
  fold_left (fun st call => addMachine (fst call) (snd call) st) calls state.

(** Every call of the sequence generates an id that the store does not
    hold at the time of the call. *)
Fixpoint generatesFreshIds (calls : list (IdSeed * MachineInit))
    (state : MachineState) : Prop :=
  match calls with
  | [] => True
  | call :: rest =>
      ~ In (machineId (fst call)) (machineIds state)
      /\ generatesFreshIds rest (addMachine (fst call) (snd call) state)
  end.

(** An operation that cannot rename a machine: every operation but an
    [updateMachine] whose partial has an [id] key with another id. *)
Definition keepsIds (op : Op) : Prop :=
  match op with
  | OpUpdateMachine i updates => p_id updates = None \/ p_id updates = Some i
  | _ => True
  end.

(** What the callers of the store do: [selectMachine] gets [null] or the
    id of a machine on the canvas, and no edit renames a machine. *)
Definition disciplined (op : Op) (state : MachineState) : Prop :=
  match op with
  | OpSelectMachine (Some i) => In i (machineIds state)
  | _ => keepsIds op
  end.

Fixpoint disciplinedRun (ops : list Op) (state : MachineState) : Prop :=
  match ops with
  | [] => True
  | op :: rest => disciplined op state /\ disciplinedRun rest (applyOp op state)
  end.

(** Whether a string has the character [-] in it. *)
Fixpoint hasDash (s : string) : bool :=
  match s with
  | EmptyString => false
  | String c s' => Ascii.eqb c "-"%char || hasDash s'
  end.

(* ===================================================================== *)
(** ** The canvas ([IsometricCanvas], [ConnectionLine])                   *)
(* ===================================================================== *)

(** [machines.find((m) => m.id === i)] *)
Definition findMachine (i : string) (ms : list Machine) : option Machine :=
  find (fun m => String.eqb (id m) i) ms.

(** The two lookups of [ConnectionLine]; [None] is its [return null]: the
    line is not drawn. *)
Definition connectionLineEndpoints (connection : Connection)
    (ms : list Machine) : option (Machine * Machine) :=
  let fromMachine := findMachine (fromMachineId connection) ms in
  let toMachine := findMachine (toMachineId connection) ms in
  match fromMachine, toMachine with
  | Some f, Some t => Some (f, t)
  | _, _ => None
  end.

(** [handleMachineClick]; [selected] is the [selectedMachineId] the
    callback captured when the canvas rendered. *)
Definition handleMachineClick (selected : option string) (machineId_ : string)
    (state : MachineState) : MachineState :=
  selectMachine (if selectedIs selected machineId_ then None
                 else Some machineId_) state.

Definition handleBackgroundClick (state : MachineState) : MachineState :=
  selectMachine None state.

Definition statusEqb (a b : MachineStatus) : bool :=
  match a, b with
  | active, active | idle, idle | stopped, stopped
  | maintenance, maintenance => true
  | _, _ => false
  end.

(** [machines.filter(m => m.status === s).length], the numbers of the
    legend and of the toolbar. *)
Definition statusCount (s : MachineStatus) (ms : list Machine) : nat :=
  List.length (filter (fun m => statusEqb (status m) s) ms).

(* ===================================================================== *)
(** ** The toolbar ([Toolbar])                                            *)
(* ===================================================================== *)

Definition activeMachines (ms : list Machine) : nat := statusCount active ms.

(** [machines.reduce((sum, m) => sum + m.throughput, 0)] *)
Definition totalThroughput (ms : list Machine) : Q :=
  fold_left (fun sum m => sum + throughput m) ms 0.

(** The [newMachine] state of the dialog. *)
Record NewMachineForm : Type := mkNewMachineForm {
  f_name : string;
  f_type : MachineType;
  f_x : Q;
  f_z : Q
}.

(** A string in a condition: the empty string is false. *)
Definition truthy (s : string) : bool := negb (String.eqb s "").

(** [handleAddMachine], its effect on the store. *)
Definition handleAddMachine (e : IdSeed) (newMachine : NewMachineForm)
    (state : MachineState) : MachineState :=
  if negb (truthy (f_name newMachine)) then state
  else
    addMachine e
      {| i_name := f_name newMachine;
         i_status := idle;
         i_throughput := 0;
         i_position := (f_x newMachine, 0, f_z newMachine);
         i_type := Some (f_type newMachine);
         i_description := Some "" |}
      state.

(* ===================================================================== *)
(** ** The side panel ([MachineSidebar])                                  *)
(* ===================================================================== *)

(** [machines.find((m) => m.id === selectedMachineId)] *)
Definition selectedMachine (state : MachineState) : option Machine :=
  match selectedMachineId state with
  | Some i => findMachine i (machines state)
  | None => None
  end.

(** The [formData] state of the panel. *)
Record FormData : Type := mkFormData {
  fd_name : string;
  fd_description : string;
  fd_throughput : Q;
  fd_status : MachineStatus
}.

(** [if (selectedMachineId) { body(selectedMachineId) }] *)
Definition ifSelected (body : string -> MachineState -> MachineState)
    (state : MachineState) : MachineState :=
  match selectedMachineId state with
  | Some i => if truthy i then body i state else state
  | None => state
  end.

Definition handleSave (formData : FormData) : MachineState -> MachineState :=
  ifSelected (fun i =>
    updateMachine i
      {| p_id := None;
         p_name := Some (fd_name formData);
         p_status := Some (fd_status formData);
         p_throughput := Some (fd_throughput formData);
         p_position := None;
         p_type := None;
         p_description := Some (Some (fd_description formData)) |}).

Definition handleDelete : MachineState -> MachineState :=
  ifSelected (fun i state => selectMachine None (deleteMachine i state)).

Definition handleStatusChange (newStatus : MachineStatus)
    : MachineState -> MachineState :=
  ifSelected (fun i => updateMachineStatus i newStatus).

(** What the operator can do.  A mesh exists for each machine of the
    store, the [n]-th mesh is that of the [n]-th machine; the buttons of
    the panel exist when [selectedMachine] is found.  The components
    render again after every change of the store, so a handler runs with
    the selection of the store as it is. *)
Inductive UiEvent : Type :=
| ClickMachine (n : nat)
| ClickBackground
| PanelClose
| PanelSave (formData : FormData)
| PanelDelete
| PanelStatus (newStatus : MachineStatus)
| ToolbarAdd (e : IdSeed) (newMachine : NewMachineForm)
| ToolbarReset.

Definition whenPanelShown (f : MachineState -> MachineState)
    (state : MachineState) : MachineState :=
  match selectedMachine state with
  | Some _ => f state
  | None => state
  end.

Definition uiStep (ev : UiEvent) (state : MachineState) : MachineState :=
  match ev with
  | ClickMachine n =>
      match nth_error (machines state) n with
      | Some machine =>
          handleMachineClick (selectedMachineId state) (id machine) state
      | None => state
      end
  | ClickBackground => handleBackgroundClick state
  | PanelClose => whenPanelShown (selectMachine None) state
  | PanelSave formData => whenPanelShown (handleSave formData) state
  | PanelDelete => whenPanelShown handleDelete state
  | PanelStatus newStatus =>
      whenPanelShown (handleStatusChange newStatus) state
  | ToolbarAdd e newMachine => handleAddMachine e newMachine state
  | ToolbarReset => loadInitialData state
  end.

Definition uiRun (evs : list UiEvent) (state : MachineState) : MachineState :=
  fold_left (fun st ev => uiStep ev st) evs state.

Definition isReset (ev : UiEvent) : bool :=
  match ev with ToolbarReset => true | _ => false end.

(* ===================================================================== *)
(** ** The feed hook and the poller ([useProductionDataRealtime],
       [ProductionPoller])                                                *)
(* ===================================================================== *)

Record APIMachineData : Type := mkAPIMachineData {
  a_id : string;
  a_status : MachineStatus;
  a_throughput : Q;
  a_efficiency : option Q;
  a_temperature : option Q;
  a_vibration : option Q;
  a_timestamp : string
}.

Record APIProductionResponse : Type := mkAPIProductionResponse {
  timestamp : string;
  lineId : string;
  apiMachines : list APIMachineData;
  metrics : option (Q * Q * Q)
}.

(** [handleData]: the transform and the call of the store. *)
Definition handleData (data : APIProductionResponse)
    (state : MachineState) : MachineState :=
  let updates :=
    map (fun m => {| r_id := a_id m;
                     r_status := a_status m;
                     r_throughput := a_throughput m |})
        (apiMachines data) in
  batchUpdateFromProductionData updates state.

(** The timers of the page.  [setInterval] returns an id greater than 0
    that no timer has had; [clearInterval] takes the timer out. *)
Record Timers : Type := mkTimers {
  nextTimer : nat;
  activeTimers : list nat
}.

Definition setInterval (t : Timers) : nat * Timers :=
  (nextTimer t,
   {| nextTimer := S (nextTimer t);
      activeTimers := nextTimer t :: activeTimers t |}).

Definition clearInterval (i : nat) (t : Timers) : Timers :=
  {| nextTimer := nextTimer t;
     activeTimers := filter (fun j => negb (Nat.eqb j i)) (activeTimers t) |}.

(** Ids are greater than 0 and the ids in use are below the next one. *)
Definition timersOk (t : Timers) : Prop :=
  (0 < nextTimer t)%nat
  /\ forall i, In i (activeTimers t) -> (0 < i < nextTimer t)%nat.

Module Poller.

(** The poller with what it acts on: the timers, the store its [onData]
    callback updates, and counters for the fetches it has started and the
    errors it has handed to [onError]. *)
Record World : Type := mkWorld {
  intervalId : option nat;
  timers : Timers;
  state : MachineState;
  fetches : nat;
  errors : nat
}.

(** The synchronous part of [fetchData]: the request is sent. *)
Definition fetchData (w : World) : World :=
  {| intervalId := intervalId w; timers := timers w; state := state w;
     fetches := S (fetches w); errors := errors w |}.

(** [start]: the first fetch, then the interval. *)
Definition start (w : World) : World :=
  let w1 := fetchData w in
  let (i, timers') := setInterval (timers w1) in
  {| intervalId := Some i; timers := timers'; state := state w1;
     fetches := fetches w1; errors := errors w1 |}.

(** [stop]; [if (this.intervalId)] is false for [null] and for 0. *)
Definition stop (w : World) : World :=
  match intervalId w with
  | Some i =>
      if Nat.eqb i 0 then w
      else {| intervalId := None; timers := clearInterval i (timers w);
              state := state w; fetches := fetches w; errors := errors w |}
  | None => w
  end.

(** The timer [i] is due: its callback runs if it has not been cleared. *)
Definition timerFires (i : nat) (w : World) : World :=
  if existsb (Nat.eqb i) (activeTimers (timers w)) then fetchData w else w.

(** The rest of [fetchData], when the request settles: [Some data] goes
    to [onData] (here [handleData]), [None] is a failure and goes to
    [onError]. *)
Definition fetchSettles (result : option APIProductionResponse)
    (w : World) : World :=
  match result with
  | Some data =>
      {| intervalId := intervalId w; timers := timers w;
         state := handleData data (state w);
         fetches := fetches w; errors := errors w |}
  | None =>
      {| intervalId := intervalId w; timers := timers w; state := state w;
         fetches := fetches w; errors := S (errors w) |}
  end.

End Poller.

(** The batch a response carries. *)
Definition batchOf (data : APIProductionResponse) : list ProductionRecord :=
  map (fun m => mkProductionRecord (a_id m) (a_status m) (a_throughput m))
      (apiMachines data).

(** The responses among the results of a series of fetches, the latest
    first. *)
Fixpoint latestFirst (results : list (option APIProductionResponse))
    : list APIProductionResponse :=
  match results with
  | [] => []
  | Some data :: rest => (latestFirst rest ++ [data])%list
  | None :: rest => latestFirst rest
  end.

(* ===================================================================== *)
(** ** Starting and stopping the simulator ([useSimulation])              *)
(* ===================================================================== *)

Module Hook.

(** [isSimulating], [intervalRef.current], and the timers of the page. *)
Record World : Type := mkWorld {
  isSimulating : bool;
  intervalRef : option nat;
  timers : Timers
}.

(** A ref in a condition: [null] and 0 are false. *)
Definition isSet (r : option nat) : bool :=
  match r with Some i => negb (Nat.eqb i 0) | None => false end.

Definition startSimulation (w : World) : World :=
  if isSet (intervalRef w) then w
  else
    let (i, timers') := setInterval (timers w) in
    {| isSimulating := true; intervalRef := Some i; timers := timers' |}.

Definition stopSimulation (w : World) : World :=
  let w1 :=
    match intervalRef w with
    | Some i =>
        if Nat.eqb i 0 then w
        else {| isSimulating := isSimulating w; intervalRef := None;
                timers := clearInterval i (timers w) |}
    | None => w
    end in
  {| isSimulating := false; intervalRef := intervalRef w1;
     timers := timers w1 |}.

Definition toggleSimulation (w : World) : World :=
  if isSimulating w then stopSimulation w else startSimulation w.

Inductive Call : Type := Start | Stop | Toggle.

Definition call (c : Call) : World -> World :=
  match c with
  | Start => startSimulation
  | Stop => stopSimulation
  | Toggle => toggleSimulation
  end.

Definition calls (cs : list Call) (w : World) : World :=
  fold_left (fun w c => call c w) cs w.

End Hook.

(* ===================================================================== *)
(** ** Further notions used by the statements                             *)
(* ===================================================================== *)

(** Both endpoints of every connection are machines of the store. *)
Definition noDanglingConnection (state : MachineState) : Prop :=
  forall c, In c (connections state) ->
            In (fromMachineId c) (machineIds state)
            /\ In (toMachineId c) (machineIds state).

(** No connection goes from a machine to itself. *)
Definition noSelfLoop (state : MachineState) : Prop :=
  forall c, In c (connections state) -> fromMachineId c <> toMachineId c.

(** An operation that cannot leave a connection without an endpoint: an
    [addConnection] between machines of the store, or an operation that
    does not rename a machine. *)
Definition keepsEndpoints (op : Op) (state : MachineState) : Prop :=
  match op with
  | OpAddConnection _ fromId toId =>
      In fromId (machineIds state) /\ In toId (machineIds state)
  | _ => keepsIds op
  end.

Fixpoint keepsEndpointsRun (ops : list Op) (state : MachineState) : Prop :=
  match ops with
  | [] => True
  | op :: rest =>
      keepsEndpoints op state /\ keepsEndpointsRun rest (applyOp op state)
  end.

(** One record applied with the two single-field operations. *)
Definition applyRecord (d : ProductionRecord) (state : MachineState)
    : MachineState :=
  updateMachineThroughput (r_id d) (r_throughput d)
    (updateMachineStatus (r_id d) (r_status d) state).

(** [Math.random()] is in [0, 1). *)
Definition unitInterval (random : nat -> Q) : Prop :=
  forall k, 0 <= random k /\ random k < 1.

(** How many times a list of effects calls [onData]. *)
Definition deliveredData (effects : list Effect) : nat :=
  List.length
    (filter (fun e => match e with OnDataCallback => true | _ => false end)
            effects).

(** How many messages of a list of events are well-formed. *)
Definition parsedMessages (evs : list Event) : nat :=
  List.length
    (filter (fun ev => match ev with SocketMessage true => true | _ => false end)
            evs).

(** A series of fetches that settle, in order. *)
Definition settleAll (results : list (option APIProductionResponse))
    (w : Poller.World) : Poller.World :=
  fold_left (fun w r => Poller.fetchSettles r w) results w.

(** How many fetches of a series failed. *)
Definition failures (results : list (option APIProductionResponse)) : nat :=
  List.length
    (filter (fun r => match r with None => true | Some _ => false end)
            results).

(** The hook is stopped and owns no timer, or it is running and owns
    exactly one; [others] are the timers of the page it does not own and
    [first] the next id when it was mounted. *)
Definition hookInv (others : list nat) (first : nat) (w : Hook.World) : Prop :=
  (first <= nextTimer (Hook.timers w))%nat
  /\ ((Hook.isSimulating w = false /\ Hook.intervalRef w = None
       /\ activeTimers (Hook.timers w) = others)
      \/ (Hook.isSimulating w = true
          /\ exists i, Hook.intervalRef w = Some i
                       /\ (first <= i < nextTimer (Hook.timers w))%nat
                       /\ activeTimers (Hook.timers w) = i :: others)).

(** [m'] is [m] but for the status and the throughput. *)
Definition sameIdentity (m m' : Machine) : Prop :=
  id m' = id m /\ name m' = name m /\ position m' = position m
  /\ type m' = type m /\ description m' = description m.

(** [state'] is [state] with the machines rewritten one by one, each
    keeping its identity, and those with an id outside [ids] untouched. *)
Definition touches (ids : list string) (state state' : MachineState) : Prop :=
  exists g : Machine -> Machine,
    (forall m, sameIdentity m (g m) /\ (~ In (id m) ids -> g m = m))
    /\ state' = mkState (map g (machines state)) (connections state)
                        (selectedMachineId state).

(** The status step 1 draws from a world in which the first number of
    the machine has been drawn. *)
Definition drawnStatus (random : nat -> Q) (w : World) : MachineStatus :=
  fst (generateRandomStatus random (mkWorld (store w) (S (drawn w)))).

(* ===================================================================== *)
(** * Properties of the store                                             *)
(* ===================================================================== *)

Lemma eqb_string_true (a b : string) : String.eqb a b = true <-> a = b.
Proof. apply String.eqb_eq. Qed.

Lemma eqb_string_false (a b : string) : String.eqb a b = false <-> a <> b.
Proof. apply String.eqb_neq. Qed.

(** Case analysis on a string comparison, with the equation in context. *)
Ltac case_eqb a b :=
  let E := fresh "E" in
  destruct (String.eqb a b) eqn:E;
  [ apply eqb_string_true in E | apply eqb_string_false in E ].

Section Reconciliation.

Variable data : list ProductionRecord.

Lemma reconcile_id (m : Machine) : id (reconcile data m) = id m.
Proof. unfold reconcile. destruct (find _ data); reflexivity. Qed.

Lemma reconcile_frame (m : Machine) :
  name (reconcile data m) = name m
  /\ type (reconcile data m) = type m
  /\ description (reconcile data m) = description m
  /\ position (reconcile data m) = position m.
Proof. unfold reconcile. destruct (find _ data); simpl; auto. Qed.

Lemma reconcile_matched (m : Machine) (d : ProductionRecord) :
  find (fun d => String.eqb (r_id d) (id m)) data = Some d ->
  In d data /\ r_id d = id m /\ reconcile data m = withRecord m d.
Proof.
  intros F. unfold reconcile. rewrite F.
  apply find_some in F. destruct F as [Hin Heq].
  apply eqb_string_true in Heq. auto.
Qed.

Lemma reconcile_unmatched (m : Machine) :
  (forall d, In d data -> r_id d <> id m) <-> 
  find (fun d => String.eqb (r_id d) (id m)) data = None.
Proof.
  split.
  - intros H. destruct (find _ data) as [d|] eqn:F; [|reflexivity].
    apply find_some in F. destruct F as [Hin Heq].
    apply eqb_string_true in Heq. exfalso. exact (H d Hin Heq).
  - intros F d Hin. apply eqb_string_false.
    exact (find_none _ _ F d Hin).
Qed.

Lemma machineIds_batchUpdate (state : MachineState) :
  machineIds (batchUpdateFromProductionData data state) = machineIds state.
Proof.
  unfold machineIds. simpl. rewrite map_map.
  apply map_ext. intros m. apply reconcile_id.
Qed.

End Reconciliation.

(** The first record with the id of [m] decides; what follows it in the
    batch is not looked at. *)
Lemma find_first_match (m : Machine) (before after : list ProductionRecord)
    (d : ProductionRecord) :
  (forall d', In d' before -> r_id d' <> id m) ->
  r_id d = id m ->
  find (fun d => String.eqb (r_id d) (id m)) (before ++ d :: after) = Some d.
Proof.
  intros Hbefore Hd. induction before as [|d0 before IH]; simpl.
  - apply eqb_string_true in Hd. rewrite Hd. reflexivity.
  - assert (H0 : r_id d0 <> id m) by (apply Hbefore; left; reflexivity).
    apply eqb_string_false in H0. rewrite H0.
    apply IH. intros d' Hin. apply Hbefore. right. exact Hin.
Qed.

(** A record whose id no machine of the list has does not change what
    [find] returns for those machines. *)
Lemma find_skips_unknown (m : Machine) (before after : list ProductionRecord)
    (d : ProductionRecord) :
  r_id d <> id m ->
  find (fun d => String.eqb (r_id d) (id m)) (before ++ d :: after)
  = find (fun d => String.eqb (r_id d) (id m)) (before ++ after).
Proof.
  intros Hd. induction before as [|d0 before IH]; simpl.
  - apply eqb_string_false in Hd. rewrite Hd. reflexivity.
  - destruct (String.eqb (r_id d0) (id m)); [reflexivity | exact IH].
Qed.

(** C1. Reconciliation is an id-keyed left merge.  A batch leaves the
    number of machines, their ids and their order, the connections and the
    selection as they are.  The machine at each index keeps its id, name,
    type, description and position; if some record of the batch has its id
    it takes the status and throughput of such a record, and otherwise it
    is unchanged.  A record whose id no machine has can be taken out of the
    batch without changing the result: it is ignored, and no machine comes
    from it. *)
Theorem batchUpdate_is_left_merge :
  forall (data : list ProductionRecord) (state : MachineState),
    let state' := batchUpdateFromProductionData data state in
    List.length (machines state') = List.length (machines state)
    /\ machineIds state' = machineIds state
    /\ connections state' = connections state
    /\ selectedMachineId state' = selectedMachineId state
    /\ (forall (n : nat) (m : Machine),
          nth_error (machines state) n = Some m ->
          exists m',
            nth_error (machines state') n = Some m'
            /\ id m' = id m /\ name m' = name m /\ type m' = type m
            /\ description m' = description m /\ position m' = position m
            /\ ((exists d, In d data /\ r_id d = id m
                           /\ status m' = r_status d
                           /\ throughput m' = r_throughput d)
                \/ ((forall d, In d data -> r_id d <> id m) /\ m' = m)))
    /\ (forall (before after : list ProductionRecord) (d : ProductionRecord),
          data = (before ++ d :: after)%list ->
          (forall m, In m (machines state) -> id m <> r_id d) ->
          state' = batchUpdateFromProductionData (before ++ after) state).
Proof.
  intros data state state'. subst state'.
  split; [simpl; apply length_map|].
  split; [apply machineIds_batchUpdate|].
  split; [reflexivity|]. split; [reflexivity|]. split.
  - intros n m Hn. exists (reconcile data m). simpl.
    split; [rewrite nth_error_map, Hn; reflexivity|].
    split; [apply reconcile_id|].
    destruct (reconcile_frame data m) as (Hname & Htype & Hdesc & Hpos).
    repeat (split; [assumption|]).
    destruct (find (fun d => String.eqb (r_id d) (id m)) data) as [d|] eqn:F.
    + left. destruct (reconcile_matched data m d F) as (Hin & Hid & Hrec).
      exists d. rewrite Hrec. simpl. auto.
    + right. split.
      * apply reconcile_unmatched. exact F.
      * unfold reconcile. rewrite F. reflexivity.
  - intros before after d -> Hunknown.
    unfold batchUpdateFromProductionData. f_equal.
    apply map_ext_in. intros m Hm. unfold reconcile.
    rewrite find_skips_unknown; [reflexivity|].
    intros Heq. exact (Hunknown m Hm (eq_sym Heq)).
Qed.

(** The scenario of the specification: the Feeder is stopped by the feed
    and keeps its name and type. *)
Example batchUpdate_scenario :
  let feeder s t :=
    mkMachine "m1" "Feeder" s t (0, 0, 0) (Some conveyor) None in
  batchUpdateFromProductionData [mkProductionRecord "m1" stopped 0]
    (mkState [feeder active 120] [] None)
  = mkState [feeder stopped 0] [] None.
Proof. reflexivity. Qed.

(** C1 at a store with two machines and a batch with a known and an
    unknown id. *)
Lemma batchUpdate_is_left_merge_witness :
  let state :=
    mkState [ mkMachine "m1" "Feeder" active 120 (0, 0, 0) (Some conveyor) None;
              mkMachine "m2" "Packer" idle 7 (1, 0, 0) (Some packer) None ]
            [] (Some "m2") in
  let data := [ mkProductionRecord "zz" active 5;
                mkProductionRecord "m1" stopped 0 ] in
  machines (batchUpdateFromProductionData data state)
  = [ mkMachine "m1" "Feeder" stopped 0 (0, 0, 0) (Some conveyor) None;
      mkMachine "m2" "Packer" idle 7 (1, 0, 0) (Some packer) None ]
  /\ batchUpdateFromProductionData data state
     = batchUpdateFromProductionData [mkProductionRecord "m1" stopped 0] state.
Proof.
  intros state data. split; [reflexivity|].
  destruct (batchUpdate_is_left_merge data state) as (_ & _ & _ & _ & _ & H).
  apply (H [] [mkProductionRecord "m1" stopped 0]
           (mkProductionRecord "zz" active 5)).
  - reflexivity.
  - intros m [<-|[<-|[]]]; discriminate.
Defined.

(** C10. With several records of one id in a batch, the first in batch
    order decides.  Every batch leaves the list of machines with its
    length and with its ids in their order.  If the batch is [before],
    then [d], then [after], where [d] has the id of the machine [m] at
    index [n] and no record of [before] has it, then the machine at index
    [n] afterwards has the status of [d] and the throughput of [d], and the
    id, name, position, type and description of [m]; and it is that same
    machine whatever follows [d] in the batch, so that later records with
    the id are ignored. *)
Theorem batchUpdate_first_duplicate_wins :
  forall (data : list ProductionRecord) (state : MachineState),
    let state' := batchUpdateFromProductionData data state in
    List.length (machines state') = List.length (machines state)
    /\ machineIds state' = machineIds state
    /\ forall (before after : list ProductionRecord) (d : ProductionRecord)
              (n : nat) (m : Machine),
         data = (before ++ d :: after)%list ->
         nth_error (machines state) n = Some m ->
         (forall d', In d' before -> r_id d' <> id m) ->
         r_id d = id m ->
         exists m',
           nth_error (machines state') n = Some m'
           /\ status m' = r_status d
           /\ throughput m' = r_throughput d
           /\ id m' = id m /\ name m' = name m /\ position m' = position m
           /\ type m' = type m /\ description m' = description m
           /\ forall after' : list ProductionRecord,
                nth_error
                  (machines (batchUpdateFromProductionData
                               (before ++ d :: after') state)) n
                = Some m'.
Proof.
  intros data state state'. subst state'.
  split; [simpl; apply length_map|].
  split; [apply machineIds_batchUpdate|].
  intros before after d n m -> Hn Hbefore Hd.
  assert (Hat : forall rest,
            nth_error
              (machines (batchUpdateFromProductionData
                           (before ++ d :: rest) state)) n
            = Some (reconcile (before ++ d :: after) m)).
  { intros rest. simpl. rewrite nth_error_map, Hn. simpl. f_equal.
    unfold reconcile.
    rewrite (find_first_match m before rest d Hbefore Hd).
    rewrite (find_first_match m before after d Hbefore Hd). reflexivity. }
  exists (reconcile (before ++ d :: after) m).
  split; [apply Hat|].
  destruct (reconcile_frame (before ++ d :: after) m)
    as (Hname & Htype & Hdesc & Hpos).
  pose proof (reconcile_id (before ++ d :: after) m) as Hid.
  assert (Hrec : reconcile (before ++ d :: after) m = withRecord m d).
  { unfold reconcile.
    rewrite (find_first_match m before after d Hbefore Hd). reflexivity. }
  split; [rewrite Hrec; reflexivity|].
  split; [rewrite Hrec; reflexivity|].
  repeat (split; [assumption|]).
  exact Hat.
Qed.

(** C10 at a batch that names [m1] three times: the machine takes idle
    and 36 from the first of the three. *)
Lemma batchUpdate_first_duplicate_wins_witness :
  let m1 := mkMachine "m1" "Feeder" active 120 (0, 0, 0) (Some conveyor) None in
  let m2 := mkMachine "m2" "Packer" idle 7 (1, 0, 0) (Some packer) None in
  let state := mkState [m2; m1] [] None in
  let data :=
    ([mkProductionRecord "m2" active 9]
     ++ mkProductionRecord "m1" idle 36
     :: [mkProductionRecord "m1" stopped 0;
         mkProductionRecord "m1" maintenance 1])%list in
  let state' := batchUpdateFromProductionData data state in
  List.length (machines state') = 2%nat
  /\ machineIds state' = ["m2"; "m1"]
  /\ exists m',
       nth_error (machines state') 1 = Some m'
       /\ status m' = idle /\ throughput m' = 36
       /\ id m' = "m1" /\ name m' = "Feeder".
Proof.
  intros m1 m2 state data state'.
  destruct (batchUpdate_first_duplicate_wins data state)
    as (Hlen & Hids & Hfirst).
  split; [exact Hlen|]. split; [exact Hids|].
  destruct (Hfirst [mkProductionRecord "m2" active 9]
              [mkProductionRecord "m1" stopped 0;
               mkProductionRecord "m1" maintenance 1]
              (mkProductionRecord "m1" idle 36) 1%nat m1)
    as (m' & Hn & Hstatus & Hthroughput & Hid & Hname & _).
  - reflexivity.
  - reflexivity.
  - intros d' [<-|[]]. discriminate.
  - reflexivity.
  - exists m'. repeat split; assumption.
Defined.

(* --------------------------------------------------------------------- *)
(** ** Lists                                                              *)
(* --------------------------------------------------------------------- *)

Section ListFacts.

Context {A : Type}.

Lemma filter_all (f : A -> bool) (l : list A) :
  (forall x, In x l -> f x = true) -> filter f l = l.
Proof.
  induction l as [|x l IH]; intros H; simpl; [reflexivity|].
  rewrite (H x (or_introl eq_refl)). f_equal.
  apply IH. intros y Hy. apply H. right. exact Hy.
Qed.

Lemma filter_none (f : A -> bool) (l : list A) :
  existsb f l = false -> filter f l = [].
Proof.
  induction l as [|x l IH]; simpl; [reflexivity|].
  intros H. apply orb_false_iff in H. destruct H as [Hx Hl].
  rewrite Hx. exact (IH Hl).
Qed.

Lemma length_filter_filter (f g : A -> bool) (l : list A) :
  (List.length (filter f (filter g l)) <= List.length (filter f l))%nat.
Proof.
  induction l as [|x l IH]; simpl; [lia|].
  destruct (g x), (f x) eqn:Fx; simpl; try rewrite Fx; simpl; lia.
Qed.

End ListFacts.

(* --------------------------------------------------------------------- *)
(** ** Deletion                                                           *)
(* --------------------------------------------------------------------- *)

Lemma machineIds_deleteMachine (i : string) (state : MachineState) :
  machineIds (deleteMachine i state)
  = filter (fun j => negb (String.eqb j i)) (machineIds state).
Proof.
  unfold machineIds. simpl.
  induction (machines state) as [|m l IH]; simpl; [reflexivity|].
  destruct (String.eqb (id m) i); simpl; [exact IH | f_equal; exact IH].
Qed.

Lemma keeps_unreferenced (i : string) (c : Connection) :
  negb (String.eqb (fromMachineId c) i) && negb (String.eqb (toMachineId c) i)
  = true <-> ~ references i c.
Proof.
  unfold references. rewrite andb_true_iff, !negb_true_iff.
  rewrite !eqb_string_false. tauto.
Qed.

(** C2, as amended.  After [deleteMachine i] no connection of the store
    has [i] as an endpoint, the connections that did not have it are all
    still there, no machine has the id [i], a selection equal to [i] is
    cleared and any other selection is kept.  If no machine has the id [i]
    the machine list is unchanged; the whole call is a no-op when, besides,
    no connection has [i] as an endpoint and the selection is not [i]. *)
Theorem deleteMachine_cascade :
  forall (i : string) (state : MachineState),
    let state' := deleteMachine i state in
    (forall c, In c (connections state') -> ~ references i c)
    /\ (forall c, In c (connections state) -> ~ references i c ->
                  In c (connections state'))
    /\ ~ In i (machineIds state')
    /\ (selectedMachineId state = Some i -> selectedMachineId state' = None)
    /\ (selectedMachineId state <> Some i ->
        selectedMachineId state' = selectedMachineId state)
    /\ (~ In i (machineIds state) -> machines state' = machines state)
    /\ (~ In i (machineIds state) ->
        (forall c, In c (connections state) -> ~ references i c) ->
        selectedMachineId state <> Some i ->
        state' = state).
Proof.
  intros i state state'. subst state'.
  assert (Hsel : selectedMachineId state <> Some i ->
                 selectedMachineId (deleteMachine i state)
                 = selectedMachineId state).
  { intros Hne. simpl. destruct (selectedMachineId state) as [s|]; simpl;
      [|reflexivity].
    case_eqb s i; [congruence | reflexivity]. }
  assert (Hmach : ~ In i (machineIds state) ->
                  machines (deleteMachine i state) = machines state).
  { intros Habs. simpl. apply filter_all. intros m Hm.
    apply negb_true_iff, eqb_string_false. intros Heq. apply Habs.
    unfold machineIds. rewrite <- Heq. apply in_map. exact Hm. }
  repeat split.
  - intros c Hc. simpl in Hc. apply filter_In in Hc.
    apply keeps_unreferenced. exact (proj2 Hc).
  - intros c Hc Href. simpl. apply filter_In. split; [exact Hc|].
    apply keeps_unreferenced. exact Href.
  - rewrite machineIds_deleteMachine. intros Hin.
    apply filter_In in Hin. destruct Hin as [_ Hne].
    rewrite String.eqb_refl in Hne. discriminate.
  - intros Hs. simpl. rewrite Hs. simpl. rewrite String.eqb_refl. reflexivity.
  - exact Hsel.
  - exact Hmach.
  - intros Habs Hconn Hne.
    destruct state as [ms cs sel].
    unfold deleteMachine. f_equal.
    + exact (Hmach Habs).
    + simpl. apply filter_all. intros c Hc.
      apply keeps_unreferenced. exact (Hconn c Hc).
    + exact (Hsel Hne).
Qed.

(** C2 on the loaded line: deleting the selected [machine-003] removes its
    three connections and clears the selection. *)
Lemma deleteMachine_cascade_witness :
  let state := selectMachine (Some "machine-003") (loadInitialData initialState) in
  let state' := deleteMachine "machine-003" state in
  selectedMachineId state = Some "machine-003"
  /\ selectedMachineId state' = None
  /\ map cid (connections state')
     = ["conn-001"; "conn-004"; "conn-005"; "conn-006"]
  /\ (forall c, In c (connections state') -> ~ references "machine-003" c).
Proof.
  intros state state'.
  destruct (deleteMachine_cascade "machine-003" state)
    as (Hrefs & _ & _ & Hsel & _).
  split; [reflexivity|]. split; [apply Hsel; reflexivity|].
  split; [reflexivity | exact Hrefs].
Defined.

(** C2 as stated fails in its last part: [addConnection] does not look at
    the machine list, so a store can hold a connection from an id that no
    machine has, and deleting that id changes the store. *)
Lemma deleteMachine_absent_id_not_noop :
  let state := addConnection (mkIdSeed 1700000000000 "k3x9q2m1z") "m1" "m2"
                 initialState in
  ~ In "m1" (machineIds state)
  /\ connections state
     = [mkConnection "conn-1700000000000-k3x9q2m1z" "m1" "m2" None]
  /\ connections (deleteMachine "m1" state) = []
  /\ deleteMachine "m1" state <> state.
Proof.
  intros state. split; [intros []|].
  split; [reflexivity|]. split; [reflexivity|]. discriminate.
Qed.

(* --------------------------------------------------------------------- *)
(** ** Connections                                                        *)
(* --------------------------------------------------------------------- *)

Lemma addConnection_self (e : IdSeed) (a : string) (state : MachineState) :
  addConnection e a a state = state.
Proof. unfold addConnection. rewrite String.eqb_refl. reflexivity. Qed.

Lemma addConnection_existing (e : IdSeed) (a b : string)
    (state : MachineState) :
  (exists c, In c (connections state)
             /\ fromMachineId c = a /\ toMachineId c = b) ->
  addConnection e a b state = state.
Proof.
  intros (c & Hc & Ha & Hb). unfold addConnection.
  destruct (String.eqb a b); [reflexivity|].
  replace (existsb _ (connections state)) with true; [reflexivity|].
  symmetry. apply existsb_exists. exists c. split; [exact Hc|].
  rewrite Ha, Hb, !String.eqb_refl. reflexivity.
Qed.

(** An accepted call appends one connection from [a] to [b]. *)
Lemma addConnection_accepted (e : IdSeed) (a b : string)
    (state : MachineState) :
  a <> b ->
  existsb (joins a b) (connections state) = false ->
  addConnection e a b state
  = mkState (machines state)
            (connections state ++ [mkConnection (connectionId e) a b None])
            (selectedMachineId state).
Proof.
  intros Hab Hex. unfold addConnection.
  apply eqb_string_false in Hab. rewrite Hab.
  unfold joins in Hex. rewrite Hex. reflexivity.
Qed.

Lemma addConnection_twice (e1 e2 : IdSeed) (a b : string)
    (state : MachineState) :
  addConnection e2 a b (addConnection e1 a b state)
  = addConnection e1 a b state.
Proof.
  case_eqb a b.
  - subst b. rewrite !addConnection_self. reflexivity.
  - destruct (existsb (joins a b) (connections state)) eqn:Hex.
    + assert (H : forall e, addConnection e a b state = state).
      { intros e. unfold addConnection. unfold joins in Hex. rewrite Hex.
        destruct (String.eqb a b); reflexivity. }
      rewrite !H. reflexivity.
    + rewrite (addConnection_accepted e1 a b state E Hex).
      apply addConnection_existing.
      exists (mkConnection (connectionId e1) a b None). simpl.
      split; [|split; reflexivity].
      apply in_or_app. right. left. reflexivity.
Qed.

Lemma connectionsBetween_addConnection (e : IdSeed) (a b : string)
    (state : MachineState) :
  a <> b ->
  (connectionsBetween a b state <= 1)%nat ->
  connectionsBetween a b (addConnection e a b state) = 1%nat.
Proof.
  intros Hab Hle. unfold connectionsBetween in *.
  destruct (existsb (joins a b) (connections state)) eqn:Hex.
  - rewrite addConnection_existing.
    + apply existsb_exists in Hex. destruct Hex as (c & Hc & Hj).
      assert (Hin : In c (filter (joins a b) (connections state)))
        by (apply filter_In; split; assumption).
      destruct (filter (joins a b) (connections state)) as [|c0 l];
        [destruct Hin|].
      simpl in *. lia.
    + apply existsb_exists in Hex. destruct Hex as (c & Hc & Hj).
      unfold joins in Hj. apply andb_true_iff in Hj.
      rewrite !eqb_string_true in Hj. exists c. tauto.
  - rewrite (addConnection_accepted e a b state Hab Hex). simpl.
    rewrite filter_app, length_app, (filter_none _ _ Hex). simpl.
    unfold joins. simpl. rewrite !String.eqb_refl. reflexivity.
Qed.

(** No store operation makes a second connection for an ordered pair. *)
Lemma connectionsBetween_applyOp (op : Op) (state : MachineState) :
  (forall a b, connectionsBetween a b state <= 1)%nat ->
  (forall a b, connectionsBetween a b (applyOp op state) <= 1)%nat.
Proof.
  intros H a b.
  destruct op as [e mi|i u|i|i|e x y|i|i s|i t|data]; simpl;
    try exact (H a b).
  - unfold connectionsBetween. simpl.
    etransitivity; [apply length_filter_filter | exact (H a b)].
  - case_eqb x y; [subst y; rewrite addConnection_self; exact (H a b)|].
    destruct (existsb (joins x y) (connections state)) eqn:Hex.
    + replace (addConnection e x y state) with state; [exact (H a b)|].
      unfold addConnection. unfold joins in Hex. rewrite Hex.
      destruct (String.eqb x y); reflexivity.
    + rewrite (addConnection_accepted e x y state E Hex).
      unfold connectionsBetween. simpl. rewrite filter_app, length_app.
      simpl. unfold joins at 2. simpl.
      case_eqb x a; simpl; [|specialize (H a b);
                              unfold connectionsBetween in H; lia].
      case_eqb y b; simpl; [|specialize (H a b);
                              unfold connectionsBetween in H; lia].
      subst x y. rewrite (filter_none _ _ Hex). reflexivity.
  - unfold connectionsBetween. simpl.
    etransitivity; [apply length_filter_filter | exact (H a b)].
Qed.

Lemma connectionsBetween_applyOps (ops : list Op) (state : MachineState) :
  (forall a b, connectionsBetween a b state <= 1)%nat ->
  (forall a b, connectionsBetween a b (applyOps ops state) <= 1)%nat.
Proof.
  revert state. induction ops as [|op ops IH]; intros state H; simpl.
  - exact H.
  - apply IH. apply connectionsBetween_applyOp. exact H.
Qed.

(** With pairwise different ordered pairs, no pair has two connections. *)
Lemma filter_joins_NoDup (a b : string) (cs : list Connection) :
  NoDup (map endpoints cs) ->
  (List.length (filter (joins a b) cs) <= 1)%nat.
Proof.
  induction cs as [|c cs IH]; simpl; intros Hnd; [lia|].
  inversion Hnd as [|p ps Hp Hps]; subst.
  specialize (IH Hps).
  destruct (joins a b c) eqn:Hc; [|exact IH]. simpl.
  destruct (filter (joins a b) cs) as [|c' l] eqn:F; [simpl; lia|].
  exfalso. apply Hp.
  assert (Hin : In c' (filter (joins a b) cs)) by (rewrite F; left; reflexivity).
  apply filter_In in Hin. destruct Hin as [Hin Hc'].
  unfold joins in Hc, Hc'. apply andb_true_iff in Hc, Hc'.
  rewrite !eqb_string_true in Hc, Hc'.
  replace (endpoints c) with (endpoints c')
    by (unfold endpoints; f_equal; intuition congruence).
  apply in_map. exact Hin.
Qed.

Lemma connectionsBetween_loadInitialData (a b : string)
    (state : MachineState) :
  (connectionsBetween a b (loadInitialData state) <= 1)%nat.
Proof.
  unfold connectionsBetween.
  change (connections (loadInitialData state)) with initialConnections.
  apply filter_joins_NoDup. unfold initialConnections, endpoints. simpl.
  repeat (constructor; [simpl; intuition congruence|]). constructor.
Qed.

(** C7. [addConnection(a, a)] leaves the store as it is; so does
    [addConnection(a, b)] when the store has a connection from [a] to [b];
    a second [addConnection(a, b)] right after the first changes nothing;
    and for [a] other than [b], after the two calls the store has exactly
    one connection from [a] to [b], in every store that did not hold two of
    them before, which is every store the operations can reach from the
    initial store or from the loaded line. *)
Theorem addConnection_rejections :
  forall (e1 e2 : IdSeed) (a b : string) (state : MachineState),
    addConnection e1 a a state = state
    /\ ((exists c, In c (connections state)
                   /\ fromMachineId c = a /\ toMachineId c = b) ->
        addConnection e1 a b state = state)
    /\ addConnection e2 a b (addConnection e1 a b state)
       = addConnection e1 a b state
    /\ (a <> b -> (connectionsBetween a b state <= 1)%nat ->
        connectionsBetween a b
          (addConnection e2 a b (addConnection e1 a b state)) = 1%nat)
    /\ (a <> b -> forall ops : list Op,
        connectionsBetween a b
          (addConnection e2 a b
             (addConnection e1 a b (applyOps ops initialState))) = 1%nat
        /\ connectionsBetween a b
             (addConnection e2 a b
                (addConnection e1 a b
                   (applyOps ops (loadInitialData state)))) = 1%nat).
Proof.
  intros e1 e2 a b state.
  split; [apply addConnection_self|].
  split; [apply addConnection_existing|].
  split; [apply addConnection_twice|].
  split.
  - intros Hab Hle. rewrite addConnection_twice.
    apply connectionsBetween_addConnection; assumption.
  - intros Hab ops. rewrite !addConnection_twice.
    split; (apply connectionsBetween_addConnection; [exact Hab|]);
      apply connectionsBetween_applyOps; intros x y.
    + unfold connectionsBetween. simpl. lia.
    + apply connectionsBetween_loadInitialData.
Qed.

(** C7 on the loaded line: a self-loop and the existing pair are refused,
    and a new pair is added once. *)
Lemma addConnection_rejections_witness :
  let state := loadInitialData initialState in
  let e1 := mkIdSeed 1700000000000 "k3x9q2m1z" in
  let e2 := mkIdSeed 1700000000001 "p0o9i8u7y" in
  addConnection e1 "machine-001" "machine-001" state = state
  /\ addConnection e1 "machine-001" "machine-002" state = state
  /\ connectionsBetween "machine-005" "machine-001"
       (addConnection e2 "machine-005" "machine-001"
          (addConnection e1 "machine-005" "machine-001" state)) = 1%nat.
Proof.
  intros state e1 e2.
  destruct (addConnection_rejections e1 e2 "machine-001" "machine-002" state)
    as (Hself & Hdup & _).
  destruct (addConnection_rejections e1 e2 "machine-005" "machine-001" state)
    as (_ & _ & _ & Hone & _).
  split; [exact Hself|]. split.
  - apply Hdup. exists (mkConnection "conn-001" "machine-001" "machine-002" None).
    split; [left; reflexivity | split; reflexivity].
  - apply Hone; [discriminate | vm_compute; lia].
Defined.

(* --------------------------------------------------------------------- *)
(** ** Machine ids                                                        *)
(* --------------------------------------------------------------------- *)

Lemma machineIds_addMachine (e : IdSeed) (machine : MachineInit)
    (state : MachineState) :
  machineIds (addMachine e machine state)
  = (machineIds state ++ [machineId e])%list.
Proof. unfold machineIds. simpl. rewrite map_app. reflexivity. Qed.

(** A [map] that keeps the id of every element keeps the list of ids. *)
Lemma map_keeps_ids (f : Machine -> Machine) (l : list Machine) :
  (forall m, id (f m) = id m) -> map id (map f l) = map id l.
Proof. intros H. rewrite map_map. apply map_ext. exact H. Qed.

Lemma machineIds_updateMachine (i : string) (updates : MachinePartial)
    (state : MachineState) :
  p_id updates = None \/ p_id updates = Some i ->
  machineIds (updateMachine i updates state) = machineIds state.
Proof.
  intros H. unfold machineIds. simpl. apply map_keeps_ids. intros m.
  case_eqb (id m) i; [|reflexivity].
  simpl. destruct H as [-> | ->]; simpl; congruence.
Qed.

Lemma machineIds_updateMachineStatus (i : string) (s : MachineStatus)
    (state : MachineState) :
  machineIds (updateMachineStatus i s state) = machineIds state.
Proof.
  unfold machineIds. simpl. apply map_keeps_ids. intros m.
  destruct (String.eqb (id m) i); reflexivity.
Qed.

Lemma machineIds_updateMachineThroughput (i : string) (t : Q)
    (state : MachineState) :
  machineIds (updateMachineThroughput i t state) = machineIds state.
Proof.
  unfold machineIds. simpl. apply map_keeps_ids. intros m.
  destruct (String.eqb (id m) i); reflexivity.
Qed.

Lemma machineIds_addConnection (e : IdSeed) (a b : string)
    (state : MachineState) :
  machineIds (addConnection e a b state) = machineIds state.
Proof.
  unfold addConnection.
  destruct (String.eqb a b); [reflexivity|].
  destruct (existsb _ (connections state)); reflexivity.
Qed.

(** C6, as amended.  The id of a machine is given by [addMachine] and no
    operation changes it afterwards, as long as no [updateMachine] call
    passes a partial with an [id] key that holds another id: [addMachine]
    puts the new id after the ids there were, [deleteMachine] takes out the
    deleted id and keeps the others, and every other operation (among them
    [updateMachine] with a partial without [id] key) leaves the list of ids
    as it is. *)
Theorem machine_ids_immutable :
  forall (op : Op) (state : MachineState),
    keepsIds op ->
    machineIds (applyOp op state)
    = match op with
      | OpAddMachine e _ => (machineIds state ++ [machineId e])%list
      | OpDeleteMachine i =>
          filter (fun j => negb (String.eqb j i)) (machineIds state)
      | _ => machineIds state
      end.
Proof.
  intros op state Hkeeps.
  destruct op as [e mi|i u|i|i|e x y|i|i s|i t|data]; simpl.
  - apply machineIds_addMachine.
  - apply machineIds_updateMachine. exact Hkeeps.
  - apply machineIds_deleteMachine.
  - reflexivity.
  - apply machineIds_addConnection.
  - reflexivity.
  - apply machineIds_updateMachineStatus.
  - apply machineIds_updateMachineThroughput.
  - apply machineIds_batchUpdate.
Qed.

(** C6 on the loaded line: an edit of the kind the side panel makes (name,
    description, throughput and status) keeps the eight ids. *)
Lemma machine_ids_immutable_witness :
  let edit :=
    mkMachinePartial None (Some "Feeder 1") (Some stopped) (Some 0) None None
      (Some (Some "renamed")) in
  keepsIds (OpUpdateMachine "machine-001" edit)
  /\ machineIds (updateMachine "machine-001" edit
                   (loadInitialData initialState))
     = [ "machine-001"; "machine-002"; "machine-003"; "machine-004";
         "machine-005"; "machine-006"; "machine-007"; "machine-008" ].
Proof.
  intros edit.
  assert (Hkeeps : keepsIds (OpUpdateMachine "machine-001" edit))
    by (left; reflexivity).
  split; [exact Hkeeps|].
  exact (machine_ids_immutable (OpUpdateMachine "machine-001" edit)
           (loadInitialData initialState) Hkeeps).
Defined.

(** C6 as stated fails: [{ ...m, ...updates }] takes every key of the
    partial, [id] included, so [updateMachine] can rename a machine. *)
Lemma updateMachine_renames :
  let rename :=
    mkMachinePartial (Some "machine-999") None None None None None None in
  let state := loadInitialData initialState in
  In "machine-001" (machineIds state)
  /\ machineIds (updateMachine "machine-001" rename state)
     = [ "machine-999"; "machine-002"; "machine-003"; "machine-004";
         "machine-005"; "machine-006"; "machine-007"; "machine-008" ]
  /\ machineIds (updateMachine "machine-001" rename state)
     <> machineIds state.
Proof.
  intros rename state. split; [left; reflexivity|].
  split; [reflexivity | discriminate].
Qed.

(* --------------------------------------------------------------------- *)
(** ** Selection                                                          *)
(* --------------------------------------------------------------------- *)

Lemma selectionValid_same (state state' : MachineState) :
  machineIds state' = machineIds state ->
  selectedMachineId state' = selectedMachineId state ->
  selectionValid state -> selectionValid state'.
Proof.
  unfold selectionValid. intros Hids Hsel. rewrite Hids, Hsel. intros H; exact H.
Qed.

Lemma selectedMachineId_addConnection (e : IdSeed) (a b : string)
    (state : MachineState) :
  selectedMachineId (addConnection e a b state) = selectedMachineId state.
Proof.
  unfold addConnection.
  destruct (String.eqb a b); [reflexivity|].
  destruct (existsb _ (connections state)); reflexivity.
Qed.

Lemma selectionValid_applyOp (op : Op) (state : MachineState) :
  disciplined op state ->
  selectionValid state -> selectionValid (applyOp op state).
Proof.
  intros Hd Hv.
  destruct op as [e mi|i u|i|i|e x y|i|i s|i t|data]; simpl in *.
  - unfold selectionValid in *. rewrite machineIds_addMachine. simpl.
    destruct (selectedMachineId state); [|exact I].
    apply in_or_app. left. exact Hv.
  - apply (selectionValid_same state); [|reflexivity|exact Hv].
    apply machineIds_updateMachine. exact Hd.
  - unfold selectionValid in *. rewrite machineIds_deleteMachine. simpl.
    destruct (selectedMachineId state) as [sel|]; simpl; [|exact I].
    case_eqb sel i; [exact I|].
    apply filter_In. split; [exact Hv|].
    apply negb_true_iff, eqb_string_false. exact E.
  - unfold selectionValid. simpl. destruct i; [exact Hd | exact I].
  - apply (selectionValid_same state); [| |exact Hv].
    + apply machineIds_addConnection.
    + apply selectedMachineId_addConnection.
  - exact Hv.
  - apply (selectionValid_same state); [|reflexivity|exact Hv].
    apply machineIds_updateMachineStatus.
  - apply (selectionValid_same state); [|reflexivity|exact Hv].
    apply machineIds_updateMachineThroughput.
  - apply (selectionValid_same state); [|reflexivity|exact Hv].
    apply machineIds_batchUpdate.
Qed.

Lemma selectionValid_applyOps (ops : list Op) (state : MachineState) :
  disciplinedRun ops state ->
  selectionValid state -> selectionValid (applyOps ops state).
Proof.
  revert state. induction ops as [|op ops IH]; intros state Hrun Hv.
  - exact Hv.
  - destruct Hrun as [Hop Hrest]. simpl. apply IH; [exact Hrest|].
    apply selectionValid_applyOp; assumption.
Qed.

(** C5, as amended.  In every store state reached from the initial state
    by store operations in which each [selectMachine] call passes [null] or
    the id of a machine the store holds at that time, and no
    [updateMachine] call renames a machine, the selection is empty or the
    id of a machine of the store. *)
Theorem selection_valid_invariant :
  forall ops : list Op,
    disciplinedRun ops initialState ->
    selectionValid (applyOps ops initialState).
Proof.
  intros ops Hrun. apply selectionValid_applyOps; [exact Hrun | exact I].
Qed.

(** C5 at a session: a machine is added, selected, edited and reported by
    the feed, a second one is added and deleted. *)
Lemma selection_valid_invariant_witness :
  let e1 := mkIdSeed 1700000000000 "k3x9q2m1z" in
  let e2 := mkIdSeed 1700000000001 "p0o9i8u7y" in
  let unit1 := mkMachineInit "Mixer" idle 0 (0, 0, 0) (Some processor) None in
  let ops :=
    [ OpAddMachine e1 unit1;
      OpSelectMachine (Some (machineId e1));
      OpUpdateMachine (machineId e1)
        (mkMachinePartial None (Some "Mixer A") None (Some 40) None None None);
      OpBatchUpdate [mkProductionRecord (machineId e1) active 35];
      OpAddMachine e2 unit1;
      OpAddConnection e1 (machineId e1) (machineId e2);
      OpDeleteMachine (machineId e2) ] in
  selectedMachineId (applyOps ops initialState)
  = Some "machine-1700000000000-k3x9q2m1z"
  /\ selectionValid (applyOps ops initialState).
Proof.
  intros e1 e2 unit1 ops. split; [reflexivity|].
  apply (selection_valid_invariant ops).
  simpl. repeat split; auto.
Defined.

(** C5 as stated fails: [selectMachine] stores its argument as it is, and
    [updateMachine] can rename the selected machine. *)
Lemma selection_can_dangle :
  let e1 := mkIdSeed 1700000000000 "k3x9q2m1z" in
  let unit1 := mkMachineInit "Mixer" idle 0 (0, 0, 0) (Some processor) None in
  ~ selectionValid (applyOps [OpSelectMachine (Some "ghost")] initialState)
  /\ ~ selectionValid
         (applyOps
            [ OpAddMachine e1 unit1;
              OpSelectMachine (Some (machineId e1));
              OpUpdateMachine (machineId e1)
                (mkMachinePartial (Some "m2") None None None None None None) ]
            initialState).
Proof.
  intros e1 unit1. split.
  - intros H. exact H.
  - intros H. vm_compute in H. destruct H as [H|[]]. discriminate.
Qed.

(* --------------------------------------------------------------------- *)
(** ** Generated ids                                                      *)
(* --------------------------------------------------------------------- *)

Lemma NoDup_snoc {A : Type} (l : list A) (x : A) :
  NoDup l -> ~ In x l -> NoDup (l ++ [x]).
Proof.
  intros Hl Hx. induction Hl as [|y l Hy Hl IH]; simpl.
  - constructor; [intros [] | constructor].
  - constructor.
    + intros Hin. apply in_app_or in Hin. destruct Hin as [Hin|[->|[]]].
      * exact (Hy Hin).
      * apply Hx. left. reflexivity.
    + apply IH. intros Hin. apply Hx. right. exact Hin.
Qed.

Lemma decimal_injective (n1 n2 : N) : decimal n1 = decimal n2 -> n1 = n2.
Proof.
  unfold decimal. intros H.
  apply (f_equal NilEmpty.uint_of_string) in H.
  rewrite !NilEmpty.usu in H. injection H as H.
  apply (f_equal N.of_uint) in H.
  rewrite !DecimalN.Unsigned.of_to in H. exact H.
Qed.

Lemma hasDash_decimal (n : N) : hasDash (decimal n) = false.
Proof.
  unfold decimal. induction (N.to_uint n) as [|d IH|d IH|d IH|d IH|d IH
                                              |d IH|d IH|d IH|d IH|d IH];
    simpl; auto.
Qed.

(** Two strings without [-], each followed by [-] and a rest: equal wholes
    have equal parts. *)
Lemma split_at_dash (a1 a2 s1 s2 : string) :
  hasDash a1 = false -> hasDash a2 = false ->
  a1 ++ "-" ++ s1 = a2 ++ "-" ++ s2 -> a1 = a2 /\ s1 = s2.
Proof.
  revert a2. induction a1 as [|c1 a1 IH]; intros [|c2 a2] H1 H2 H;
    simpl in *.
  - injection H as H. auto.
  - injection H as Hc _. subst c2. simpl in H2. discriminate.
  - injection H as Hc _. subst c1. simpl in H1. discriminate.
  - injection H as Hc H. subst c2.
    apply orb_false_iff in H1. apply orb_false_iff in H2.
    destruct (IH a2 (proj2 H1) (proj2 H2) H) as [-> ->]. auto.
Qed.

(** The id format is unambiguous: the time and the suffix can be read off
    a generated id. *)
Lemma machineId_injective (e1 e2 : IdSeed) :
  machineId e1 = machineId e2 -> e1 = e2.
Proof.
  unfold machineId. intros H. simpl in H.
  injection H as H.
  apply split_at_dash in H; try apply hasDash_decimal.
  destruct H as [Hn Hs]. apply decimal_injective in Hn.
  destruct e1, e2. simpl in *. congruence.
Qed.

Lemma generatesFreshIds_firstn (n : nat) (calls : list (IdSeed * MachineInit))
    (state : MachineState) :
  generatesFreshIds calls state -> generatesFreshIds (firstn n calls) state.
Proof.
  revert calls state. induction n as [|n IH]; intros calls state H.
  - exact I.
  - destruct calls as [|call rest]; [exact I|].
    destruct H as [Hfresh Hrest]. split; [exact Hfresh|].
    apply IH. exact Hrest.
Qed.

Lemma addMachines_NoDup (calls : list (IdSeed * MachineInit))
    (state : MachineState) :
  NoDup (machineIds state) ->
  generatesFreshIds calls state ->
  NoDup (machineIds (addMachines calls state)).
Proof.
  revert state. induction calls as [|call rest IH]; intros state Hnd Hfresh.
  - exact Hnd.
  - destruct Hfresh as [Hfresh Hrest]. simpl. apply IH; [|exact Hrest].
    rewrite machineIds_addMachine. apply NoDup_snoc; assumption.
Qed.

(** Calls with pairwise different seeds (time, suffix), none of which
    generates an id of the store, generate fresh ids. *)
Lemma distinct_seeds_generate_fresh_ids
    (calls : list (IdSeed * MachineInit)) (state : MachineState) :
  NoDup (map fst calls) ->
  (forall call, In call calls ->
                ~ In (machineId (fst call)) (machineIds state)) ->
  generatesFreshIds calls state.
Proof.
  revert state. induction calls as [|call rest IH]; intros state Hnd Hnew.
  - exact I.
  - simpl in Hnd. inversion Hnd as [|e es He Hes]; subst.
    split; [apply Hnew; left; reflexivity|].
    apply IH; [exact Hes|].
    intros call' Hin. rewrite machineIds_addMachine.
    intros Hin'. apply in_app_or in Hin'. destruct Hin' as [Hin'|[Heq|[]]].
    + exact (Hnew call' (or_intror Hin) Hin').
    + apply machineId_injective in Heq. apply He. rewrite Heq.
      apply in_map. exact Hin.
Qed.

(** C3, as amended.  From a store whose machine ids are pairwise distinct,
    the ids stay pairwise distinct after every call of a sequence of
    [addMachine] calls in which each call generates, from the time and the
    random suffix it draws, an id that the store does not hold yet; the
    store does not check this.  From the initial store this is so whenever
    the (time, suffix) pairs of the calls are pairwise different. *)
Theorem addMachine_ids_distinct :
  forall (calls : list (IdSeed * MachineInit)) (state : MachineState),
    NoDup (machineIds state) ->
    (generatesFreshIds calls state ->
     forall n : nat,
       NoDup (machineIds (addMachines (firstn n calls) state)))
    /\ (state = initialState -> NoDup (map fst calls) ->
        forall n : nat,
          NoDup (machineIds (addMachines (firstn n calls) state))).
Proof.
  intros calls state Hnd.
  assert (Hfresh : generatesFreshIds calls state ->
                   forall n : nat,
                     NoDup (machineIds (addMachines (firstn n calls) state))).
  { intros Hfresh n. apply addMachines_NoDup; [exact Hnd|].
    apply generatesFreshIds_firstn. exact Hfresh. }
  split; [exact Hfresh|].
  intros -> Hseeds. apply Hfresh.
  apply distinct_seeds_generate_fresh_ids; [exact Hseeds|].
  intros call _ [].
Qed.

(** C3 for two machines added to the loaded line in the same millisecond
    with different suffixes. *)
Lemma addMachine_ids_distinct_witness :
  let unit1 := mkMachineInit "Mixer" idle 0 (0, 0, 0) (Some processor) None in
  let calls := [ (mkIdSeed 1700000000000 "k3x9q2m1z", unit1);
                 (mkIdSeed 1700000000000 "p0o9i8u7y", unit1) ] in
  let state := loadInitialData initialState in
  NoDup (machineIds state)
  /\ generatesFreshIds calls state
  /\ NoDup (machineIds (addMachines (firstn 2 calls) state)).
Proof.
  intros unit1 calls state.
  assert (Hnd : NoDup (machineIds state)).
  { repeat (constructor; [simpl; intuition discriminate|]). constructor. }
  assert (Hfresh : generatesFreshIds calls state).
  { simpl. repeat split; intuition discriminate. }
  split; [exact Hnd|]. split; [exact Hfresh|].
  exact (proj1 (addMachine_ids_distinct calls state Hnd) Hfresh 2%nat).
Defined.

(** C3 as stated fails: two calls that read the same time and draw the
    same suffix give two machines one id. *)
Lemma addMachine_same_seed_collides :
  let unit1 := mkMachineInit "Mixer" idle 0 (0, 0, 0) (Some processor) None in
  let e := mkIdSeed 1700000000000 "k3x9q2m1z" in
  NoDup (machineIds initialState)
  /\ machineIds (addMachines [(e, unit1); (e, unit1)] initialState)
     = [ "machine-1700000000000-k3x9q2m1z";
         "machine-1700000000000-k3x9q2m1z" ]
  /\ ~ NoDup (machineIds (addMachines [(e, unit1); (e, unit1)] initialState)).
Proof.
  intros unit1 e. split; [constructor|]. split; [reflexivity|].
  intros H. inversion H as [|x l Hx Hl]; subst.
  apply Hx. left. reflexivity.
Qed.

(* ===================================================================== *)
(** * Properties of the simulator                                         *)
(* ===================================================================== *)

Lemma floor_nonneg (x : Q) : 0 <= x -> 0 <= floor x.
Proof.
  intros Hx. unfold floor.
  apply Qfloor_resp_le in Hx. change (Qfloor 0) with 0%Z in Hx.
  unfold Qle. simpl. lia.
Qed.

Lemma throughputFloor_updateMachineStatus (i : string) (s : MachineStatus)
    (state : MachineState) :
  throughputFloor state -> throughputFloor (updateMachineStatus i s state).
Proof.
  unfold throughputFloor. simpl. intros H.
  apply Forall_map. revert H. apply Forall_impl. intros m Hm.
  destruct (String.eqb (id m) i); exact Hm.
Qed.

Lemma throughputFloor_updateMachineThroughput (i : string) (t : Q)
    (state : MachineState) :
  0 <= t ->
  throughputFloor state -> throughputFloor (updateMachineThroughput i t state).
Proof.
  unfold throughputFloor. simpl. intros Ht H.
  apply Forall_map. revert H. apply Forall_impl. intros m Hm.
  destruct (String.eqb (id m) i); [exact Ht | exact Hm].
Qed.

Section SimulationFacts.

Variable random : nat -> Q.
Variable config : SimulationConfig.

Lemma fluctuate_floor (machine : Machine) (w : World) :
  throughputFloor (store w) ->
  throughputFloor (store (snd (fluctuate random config machine w))).
Proof.
  intros H. unfold fluctuate.
  destruct (status machine); simpl; try exact H.
  apply throughputFloor_updateMachineThroughput; [|exact H].
  apply Q.le_max_l.
Qed.

Lemma simulateMachine_floor (machine : Machine) (w : World) :
  0 <= throughput machine ->
  throughputFloor (store w) ->
  throughputFloor (store (snd (simulateMachine random config machine w))).
Proof.
  intros Hm H. unfold simulateMachine, bind, mathRandom. simpl.
  destruct (Qltb (random (drawn w)) (1 # 10)).
  - unfold generateRandomStatus, bind, mathRandom, ret, call. simpl.
    set (newStatus := if Qltb (85 # 100) (random (S (drawn w))) then _ else _).
    assert (Hs : throughputFloor
                   (updateMachineStatus (id machine) newStatus (store w)))
      by (apply throughputFloor_updateMachineStatus; exact H).
    destruct newStatus.
    + apply fluctuate_floor. exact Hs.
    + simpl. apply throughputFloor_updateMachineThroughput; [|exact Hs].
      apply floor_nonneg. apply Qmult_le_0_compat; [exact Hm|].
      unfold Qle. simpl. lia.
    + simpl. apply throughputFloor_updateMachineThroughput; [|exact Hs].
      apply Qle_refl.
    + simpl. apply throughputFloor_updateMachineThroughput; [|exact Hs].
      apply Qle_refl.
  - apply fluctuate_floor. exact H.
Qed.

Lemma tick_floor (capturedMachines : list Machine) (w : World) :
  Forall (fun m => 0 <= throughput m) capturedMachines ->
  throughputFloor (store w) ->
  throughputFloor (store (tick random config capturedMachines w)).
Proof.
  unfold tick, simulateStep. intros Hc. revert w.
  induction Hc as [|machine rest Hm Hrest IH]; intros w H; simpl.
  - exact H.
  - unfold bind.
    destruct (simulateMachine random config machine w) as [u w1] eqn:E.
    apply IH.
    change w1 with (snd (u, w1)). rewrite <- E.
    apply simulateMachine_floor; assumption.
Qed.

Lemma simulatorRun_floor (w0 : World) (worlds : list World) :
  throughputFloor (store w0) ->
  simulatorRun random config w0 worlds ->
  Forall (fun w => throughputFloor (store w)) worlds.
Proof.
  intros H0 Hrun. induction Hrun as [|w seen past Hrun IH Hseen].
  - constructor; [exact H0 | constructor].
  - constructor; [|exact IH].
    apply tick_floor.
    + exact (proj1 (Forall_forall _ _) IH seen Hseen).
    + inversion IH; assumption.
Qed.

Lemma runInterval_simulatorRun (n : nat) (w0 : World) :
  exists past,
    simulatorRun random config w0
      (runInterval random config n (machines (store w0)) w0 :: past)
    /\ In w0 (runInterval random config n (machines (store w0)) w0 :: past).
Proof.
  assert (G : forall n w past,
             simulatorRun random config w0 (w :: past) ->
             In w0 (w :: past) ->
             exists past',
               simulatorRun random config w0
                 (runInterval random config n (machines (store w0)) w :: past')
               /\ In w0 (runInterval random config n (machines (store w0)) w
                         :: past')).
  { clear n. induction n as [|n IH]; intros w past Hrun Hin; simpl.
    - exists past. auto.
    - apply (IH _ (w :: past)).
      + apply run_tick; assumption.
      + right. exact Hin. }
  apply (G n w0 []); [apply run_start | left; reflexivity].
Qed.

End SimulationFacts.

(** C8. From a store in which every throughput is at least 0, every
    throughput is still at least 0 after any number of simulator ticks:
    in every world a run of the simulator goes through, whichever earlier
    render each tick took its machine array from; in particular after [n]
    ticks of the interval, which all use the array captured at the start,
    and after a tick that uses the current store. *)
Theorem simulator_throughput_floor :
  forall (random : nat -> Q) (config : SimulationConfig) (w0 : World),
    throughputFloor (store w0) ->
    (forall worlds : list World,
       simulatorRun random config w0 worlds ->
       Forall (fun w => throughputFloor (store w)) worlds)
    /\ (forall n : nat,
          throughputFloor
            (store (runInterval random config n (machines (store w0)) w0)))
    /\ throughputFloor (store (tickFresh random config w0)).
Proof.
  intros random config w0 H0.
  split; [|split].
  - intros worlds Hrun. exact (simulatorRun_floor random config w0 worlds H0 Hrun).
  - intros n.
    destruct (runInterval_simulatorRun random config n w0) as (past & Hrun & _).
    apply (simulatorRun_floor random config w0 _ H0) in Hrun.
    inversion Hrun; assumption.
  - unfold tickFresh. apply tick_floor; exact H0.
Qed.

(** C8 on the loaded line: three ticks of the interval with the
    configuration of [App]. *)
Lemma simulator_throughput_floor_witness :
  let random := drawsOf [ 5 # 100; 65 # 100; 1 # 100; 5 # 100; 75 # 100;
                          1 # 2; 0; 2 # 100; 1 # 10; 99 # 100 ] in
  let w0 := mkWorld (loadInitialData initialState) 0 in
  throughputFloor (store w0)
  /\ throughputFloor
       (store (runInterval random appConfig 3 (machines (store w0)) w0)).
Proof.
  intros random w0.
  assert (H0 : throughputFloor (store w0))
    by (repeat constructor; unfold Qle; simpl; lia).
  split; [exact H0|].
  destruct (simulator_throughput_floor random appConfig w0 H0)
    as (_ & Hinterval & _).
  exact (Hinterval 3%nat).
Defined.

Section StatusGate.

Variable random : nat -> Q.
Variable config : SimulationConfig.

(** A machine that the captured array holds as not active and that step 1
    turns active gets the status update and nothing else: no third number
    is drawn and [updateMachineThroughput] is not called. *)
Lemma status_gate_reads_captured_status (machine : Machine) (w : World) :
  status machine <> active ->
  Qltb (random (drawn w)) (1 # 10) = true ->
  Qltb (6 # 10) (random (S (drawn w))) = false ->
  simulateMachine random config machine w
  = (tt, mkWorld (updateMachineStatus (id machine) active (store w))
                 (S (S (drawn w)))).
Proof.
  intros Hstatus Hchange Hdraw.
  assert (Hle : random (S (drawn w)) <= 6 # 10).
  { unfold Qltb in Hdraw. apply negb_false_iff in Hdraw.
    apply Qle_bool_iff. exact Hdraw. }
  assert (Hlow : forall q, 6 # 10 <= q -> Qltb q (random (S (drawn w))) = false).
  { intros q Hq. unfold Qltb. apply negb_false_iff, Qle_bool_iff.
    eapply Qle_trans; [exact Hle | exact Hq]. }
  unfold simulateMachine, generateRandomStatus, bind, mathRandom, ret, call.
  simpl. rewrite Hchange. simpl. rewrite Hdraw.
  rewrite !Hlow by (unfold Qle; simpl; lia).
  unfold fluctuate. destruct (status machine); [congruence | reflexivity ..].
Qed.

End StatusGate.

(** C4 fails on the code.  The store and the captured array hold one idle
    machine of throughput 50; step 1 draws 0.05 (change) and 0.3 (active).
    After the tick the machine is active and its throughput is still 50:
    the gate of step 2 reads the status of the captured machine, which is
    still idle.  Two numbers were drawn; had the machine been captured as
    active, the third would have moved the throughput to 58. *)
Theorem simulateStep_became_active_not_fluctuated :
  let feeder s t :=
    mkMachine "m1" "Feeder" s t (0, 0, 0) (Some conveyor) None in
  let random := drawsOf [5 # 100; 3 # 10; 9 # 10] in
  let w0 := mkWorld (mkState [feeder idle 50] [] None) 0 in
  let w1 := mkWorld (mkState [feeder active 50] [] None) 0 in
  tickFresh random defaultConfig w0
  = mkWorld (mkState [feeder active 50] [] None) 2
  /\ tickFresh random defaultConfig w1
     = mkWorld (mkState [feeder active 58] [] None) 3.
Proof. split; reflexivity. Qed.

(* ===================================================================== *)
(** * Properties of the push feed adapter                                 *)
(* ===================================================================== *)

Lemma scheduledReconnects_app (e1 e2 : list Effect) :
  scheduledReconnects (e1 ++ e2)
  = (scheduledReconnects e1 + scheduledReconnects e2)%nat.
Proof.
  unfold scheduledReconnects. rewrite filter_app, length_app. reflexivity.
Qed.



Lemma runEvents_cons (ev : Event) (evs : list Event)
    (this : ProductionWebSocket) :
  runEvents (ev :: evs) this
  = (fst (runEvents evs (fst (handle ev this))),
     (snd (handle ev this) ++ snd (runEvents evs (fst (handle ev this))))%list).
Proof.
  simpl. destruct (handle ev this) as [this1 effects1]. simpl.
  destruct (runEvents evs this1) as [this2 effects2]. reflexivity.
Qed.





(* ===================================================================== *)
(** * Further properties of the store                                     *)
(* ===================================================================== *)

Section MoreListFacts.

Context {A : Type}.

Lemma find_app (f : A -> bool) (l1 l2 : list A) :
  find f (l1 ++ l2)
  = match find f l1 with Some x => Some x | None => find f l2 end.
Proof.
  induction l1 as [|x l1 IH]; simpl; [reflexivity|].
  destruct (f x); [reflexivity | exact IH].
Qed.

Lemma filter_swap (f g : A -> bool) (l : list A) :
  filter f (filter g l) = filter g (filter f l).
Proof.
  induction l as [|x l IH]; simpl; [reflexivity|].
  destruct (g x) eqn:G, (f x) eqn:F; simpl;
    rewrite ?G, ?F, IH; reflexivity.
Qed.

Lemma filter_twice (f : A -> bool) (l : list A) :
  filter f (filter f l) = filter f l.
Proof.
  apply filter_all. intros x Hx. apply filter_In in Hx. exact (proj2 Hx).
Qed.

(** A conditional [map] whose condition holds for no element. *)
Lemma map_untouched (test : A -> bool) (f : A -> A) (l : list A) :
  (forall x, In x l -> test x = false) ->
  map (fun x => if test x then f x else x) l = l.
Proof.
  induction l as [|x l IH]; intros H; simpl; [reflexivity|].
  rewrite (H x (or_introl eq_refl)). f_equal.
  apply IH. intros y Hy. apply H. right. exact Hy.
Qed.

End MoreListFacts.

Lemma absent_id_test (i : string) (state : MachineState) :
  ~ In i (machineIds state) ->
  forall m, In m (machines state) -> String.eqb (id m) i = false.
Proof.
  intros Habs m Hm. apply eqb_string_false. intros Heq. apply Habs.
  rewrite <- Heq. unfold machineIds. apply in_map. exact Hm.
Qed.

Lemma state_eta (state : MachineState) :
  mkState (machines state) (connections state) (selectedMachineId state)
  = state.
Proof. destruct state; reflexivity. Qed.

(** X1. An update that names an id no machine has changes nothing, and
    raises nothing: [updateMachine], [updateMachineStatus] and
    [updateMachineThroughput] return the store as it was. *)
Theorem update_unknown_id_noop :
  forall (i : string) (state : MachineState),
    ~ In i (machineIds state) ->
    (forall updates, updateMachine i updates state = state)
    /\ (forall s, updateMachineStatus i s state = state)
    /\ (forall t, updateMachineThroughput i t state = state).
Proof.
  intros i state Habs.
  pose proof (absent_id_test i state Habs) as Htest.
  repeat split; intros;
    [unfold updateMachine | unfold updateMachineStatus
     | unfold updateMachineThroughput];
    rewrite (map_untouched (fun m => String.eqb (id m) i)) by exact Htest;
    apply state_eta.
Qed.

Lemma update_unknown_id_noop_witness :
  let state := loadInitialData initialState in
  ~ In "machine-404" (machineIds state)
  /\ updateMachineStatus "machine-404" stopped state = state.
Proof.
  intros state.
  assert (Habs : ~ In "machine-404" (machineIds state))
    by (simpl; intuition discriminate).
  split; [exact Habs|].
  exact (proj1 (proj2 (update_unknown_id_noop "machine-404" state Habs))
           stopped).
Defined.

(* --------------------------------------------------------------------- *)
(** ** Batches compose                                                    *)
(* --------------------------------------------------------------------- *)

Lemma withRecord_reconcile (data : list ProductionRecord) (m : Machine)
    (d : ProductionRecord) :
  withRecord (reconcile data m) d = withRecord m d.
Proof.
  unfold withRecord. rewrite reconcile_id.
  destruct (reconcile_frame data m) as (-> & -> & -> & ->). reflexivity.
Qed.

Lemma reconcile_app (d1 d2 : list ProductionRecord) (m : Machine) :
  reconcile d2 (reconcile d1 m) = reconcile (d2 ++ d1) m.
Proof.
  unfold reconcile at 1 3. rewrite reconcile_id, find_app.
  destruct (find (fun d => String.eqb (r_id d) (id m)) d2) as [u|].
  - apply withRecord_reconcile.
  - reflexivity.
Qed.

Lemma batchUpdate_app (d1 d2 : list ProductionRecord) (state : MachineState) :
  batchUpdateFromProductionData d2 (batchUpdateFromProductionData d1 state)
  = batchUpdateFromProductionData (d2 ++ d1) state.
Proof.
  unfold batchUpdateFromProductionData. simpl. f_equal.
  rewrite map_map. apply map_ext. intros m. apply reconcile_app.
Qed.

Lemma batchUpdate_nil (state : MachineState) :
  batchUpdateFromProductionData [] state = state.
Proof.
  unfold batchUpdateFromProductionData, reconcile. simpl.
  rewrite map_id. apply state_eta.
Qed.

(** X2. Two batches in a row are one batch: applying [d1] and then [d2]
    is applying [d2 ++ d1], so for each machine the later batch that names
    it decides.  Applying a batch a second time changes nothing, and the
    empty batch changes nothing. *)
Theorem batchUpdate_composes :
  forall (d1 d2 : list ProductionRecord) (state : MachineState),
    batchUpdateFromProductionData d2 (batchUpdateFromProductionData d1 state)
    = batchUpdateFromProductionData (d2 ++ d1) state
    /\ batchUpdateFromProductionData d1
         (batchUpdateFromProductionData d1 state)
       = batchUpdateFromProductionData d1 state
    /\ batchUpdateFromProductionData [] state = state.
Proof.
  intros d1 d2 state. split; [apply batchUpdate_app|].
  split; [|apply batchUpdate_nil].
  rewrite batchUpdate_app.
  unfold batchUpdateFromProductionData. f_equal.
  apply map_ext. intros m. unfold reconcile. rewrite find_app.
  destruct (find (fun d => String.eqb (r_id d) (id m)) d1); reflexivity.
Qed.

Lemma batchUpdate_single (d : ProductionRecord) (state : MachineState) :
  batchUpdateFromProductionData [d] state = applyRecord d state.
Proof.
  unfold batchUpdateFromProductionData, applyRecord, updateMachineThroughput,
    updateMachineStatus. simpl. f_equal.
  rewrite map_map. apply map_ext. intros m. unfold reconcile. simpl.
  rewrite (String.eqb_sym (r_id d) (id m)).
  destruct (String.eqb (id m) (r_id d)) eqn:E; simpl; rewrite E; reflexivity.
Qed.

(** X3. A batch does what the two single-field operations do record by
    record, the records taken from the last to the first: the batch is
    [updateMachineStatus] and [updateMachineThroughput] for its last
    record, then for the one before, and so on, which is why the first
    record of an id has the last word. *)
Theorem batchUpdate_is_fold_of_single_updates :
  forall (data : list ProductionRecord) (state : MachineState),
    batchUpdateFromProductionData data state
    = fold_right applyRecord state data.
Proof.
  intros data state. induction data as [|d rest IH]; simpl.
  - apply batchUpdate_nil.
  - rewrite <- IH, <- batchUpdate_single. symmetry.
    apply (batchUpdate_app rest [d]).
Qed.

(* --------------------------------------------------------------------- *)
(** ** Adding and deleting                                                *)
(* --------------------------------------------------------------------- *)

(** X4. A connection that was accepted is undone by [deleteConnection] on
    its id: if [a] and [b] differ, no connection goes from [a] to [b] and
    no connection has the generated id, then deleting that id after the
    [addConnection] gives the store back. *)
Theorem addConnection_deleteConnection :
  forall (e : IdSeed) (a b : string) (state : MachineState),
    a <> b ->
    existsb (joins a b) (connections state) = false ->
    ~ In (connectionId e) (map cid (connections state)) ->
    deleteConnection (connectionId e) (addConnection e a b state) = state.
Proof.
  intros e a b state Hab Hex Hfresh.
  rewrite (addConnection_accepted e a b state Hab Hex).
  unfold deleteConnection. simpl.
  rewrite filter_app. simpl. rewrite String.eqb_refl. simpl.
  rewrite app_nil_r, filter_all; [apply state_eta|].
  intros c Hc. apply negb_true_iff, eqb_string_false.
  intros Heq. apply Hfresh. rewrite <- Heq. apply in_map. exact Hc.
Qed.

Lemma addConnection_deleteConnection_witness :
  let state := loadInitialData initialState in
  let e := mkIdSeed 1700000000000 "k3x9q2m1z" in
  deleteConnection (connectionId e)
    (addConnection e "machine-005" "machine-001" state) = state.
Proof.
  intros state e.
  apply (addConnection_deleteConnection e "machine-005" "machine-001" state).
  - discriminate.
  - reflexivity.
  - simpl. intuition discriminate.
Defined.

(** X5. A machine that was added is undone by [deleteMachine] on its id:
    if no machine has the generated id, no connection has it as an
    endpoint and it is not the selection, then deleting that id after the
    [addMachine] gives the store back. *)
Theorem addMachine_deleteMachine :
  forall (e : IdSeed) (machine : MachineInit) (state : MachineState),
    ~ In (machineId e) (machineIds state) ->
    (forall c, In c (connections state) -> ~ references (machineId e) c) ->
    selectedMachineId state <> Some (machineId e) ->
    deleteMachine (machineId e) (addMachine e machine state) = state.
Proof.
  intros e machine state Hfresh Hrefs Hsel.
  unfold deleteMachine, addMachine. simpl.
  rewrite filter_app. simpl. rewrite String.eqb_refl. simpl.
  rewrite app_nil_r.
  rewrite (filter_all _ (machines state)).
  - rewrite (filter_all _ (connections state)).
    + replace (if selectedIs (selectedMachineId state) (machineId e)
               then None else selectedMachineId state)
        with (selectedMachineId state); [apply state_eta|].
      destruct (selectedMachineId state) as [s|]; simpl; [|reflexivity].
      case_eqb s (machineId e); [congruence | reflexivity].
    + intros c Hc. apply keeps_unreferenced. exact (Hrefs c Hc).
  - intros m Hm. apply negb_true_iff.
    exact (absent_id_test (machineId e) state Hfresh m Hm).
Qed.

Lemma addMachine_deleteMachine_witness :
  let state := loadInitialData initialState in
  let e := mkIdSeed 1700000000000 "k3x9q2m1z" in
  let unit1 := mkMachineInit "Mixer" idle 0 (0, 0, 0) (Some processor) None in
  deleteMachine (machineId e) (addMachine e unit1 state) = state.
Proof.
  intros state e unit1.
  apply (addMachine_deleteMachine e unit1 state).
  - simpl. intuition discriminate.
  - intros c Hc [H|H]; simpl in Hc;
      repeat (destruct Hc as [<-|Hc]; [discriminate|]); exact Hc.
  - discriminate.
Defined.

(** X6. Deletions of machines can be done in any order, and deleting a
    machine a second time changes nothing. *)
Theorem deleteMachine_commutes :
  forall (i j : string) (state : MachineState),
    deleteMachine i (deleteMachine j state)
    = deleteMachine j (deleteMachine i state)
    /\ deleteMachine i (deleteMachine i state) = deleteMachine i state.
Proof.
  intros i j state. split.
  - unfold deleteMachine. simpl. f_equal.
    + apply filter_swap.
    + apply filter_swap.
    + destruct (selectedMachineId state) as [s|]; simpl; [|reflexivity].
      case_eqb s j; case_eqb s i; simpl;
        rewrite ?(proj2 (eqb_string_true _ _)) by assumption;
        rewrite ?(proj2 (eqb_string_false _ _)) by assumption;
        reflexivity.
  - unfold deleteMachine. simpl. f_equal.
    + apply filter_twice.
    + apply filter_twice.
    + destruct (selectedMachineId state) as [s|]; simpl; [|reflexivity].
      case_eqb s i; simpl; [reflexivity|].
      rewrite (proj2 (eqb_string_false _ _)) by assumption. reflexivity.
Qed.

(* --------------------------------------------------------------------- *)
(** ** Invariants of the connections                                      *)
(* --------------------------------------------------------------------- *)

(** Where a connection of the store after an operation comes from. *)
Lemma connection_origin (op : Op) (state : MachineState) (c : Connection) :
  In c (connections (applyOp op state)) ->
  (In c (connections state)
   /\ match op with
      | OpDeleteMachine i => ~ references i c
      | _ => True
      end)
  \/ (exists e a b,
        op = OpAddConnection e a b /\ a <> b
        /\ c = mkConnection (connectionId e) a b None).
Proof.
  destruct op as [e mi|i u|i|i|e x y|i|i s|i t|data]; simpl; auto.
  - intros Hc. apply filter_In in Hc. destruct Hc as [Hc Hk].
    left. split; [exact Hc|]. apply keeps_unreferenced. exact Hk.
  - unfold addConnection. case_eqb x y; [auto|].
    destruct (existsb _ (connections state)); [auto|]. simpl.
    intros Hc. apply in_app_or in Hc. destruct Hc as [Hc|[<-|[]]]; [auto|].
    right. exists e, x, y. auto.
  - intros Hc. apply filter_In in Hc. left. split; [exact (proj1 Hc)|exact I].
Qed.

Lemma noSelfLoop_applyOps (ops : list Op) (state : MachineState) :
  noSelfLoop state -> noSelfLoop (applyOps ops state).
Proof.
  revert state. induction ops as [|op ops IH]; intros state H; simpl.
  - exact H.
  - apply IH. intros c Hc.
    destruct (connection_origin op state c Hc)
      as [[Hin _]|(e & a & b & _ & Hab & ->)].
    + exact (H c Hin).
    + exact Hab.
Qed.

(** X7. No sequence of store operations makes a connection from a machine
    to itself: a store without such a connection stays without one, and
    the initial store and the loaded line have none. *)
Theorem no_self_loop_invariant :
  forall (ops : list Op) (state : MachineState),
    (noSelfLoop state -> noSelfLoop (applyOps ops state))
    /\ noSelfLoop (applyOps ops initialState)
    /\ noSelfLoop (applyOps ops (loadInitialData state)).
Proof.
  intros ops state. split; [apply noSelfLoop_applyOps|].
  split; apply noSelfLoop_applyOps.
  - intros c [].
  - intros c Hc. simpl in Hc.
    repeat (destruct Hc as [<-|Hc]; [discriminate|]). destruct Hc.
Qed.

Lemma no_self_loop_invariant_witness :
  let e := mkIdSeed 1700000000000 "k3x9q2m1z" in
  noSelfLoop
    (applyOps [ OpAddConnection e "machine-005" "machine-005";
                OpAddConnection e "machine-005" "machine-001" ]
       (loadInitialData initialState)).
Proof.
  intros e.
  exact (proj2 (proj2 (no_self_loop_invariant
                         [ OpAddConnection e "machine-005" "machine-005";
                           OpAddConnection e "machine-005" "machine-001" ]
                         initialState))).
Defined.

(** The ids after an operation that does not rename. *)
Lemma machine_ids_step (op : Op) (state : MachineState) :
  keepsIds op ->
  machineIds (applyOp op state)
  = match op with
    | OpAddMachine e _ => (machineIds state ++ [machineId e])%list
    | OpDeleteMachine i =>
        filter (fun j => negb (String.eqb j i)) (machineIds state)
    | _ => machineIds state
    end.
Proof.
  intros Hkeeps.
  destruct op as [e mi|i u|i|i|e x y|i|i s|i t|data]; simpl.
  - apply machineIds_addMachine.
  - apply machineIds_updateMachine. exact Hkeeps.
  - apply machineIds_deleteMachine.
  - reflexivity.
  - apply machineIds_addConnection.
  - reflexivity.
  - apply machineIds_updateMachineStatus.
  - apply machineIds_updateMachineThroughput.
  - apply machineIds_batchUpdate.
Qed.

Lemma noDangling_applyOp (op : Op) (state : MachineState) :
  keepsEndpoints op state ->
  noDanglingConnection state -> noDanglingConnection (applyOp op state).
Proof.
  intros Hk Hnd c Hc.
  destruct (connection_origin op state c Hc)
    as [[Hin Hdel]|(e & a & b & -> & Hab & ->)].
  - destruct (Hnd c Hin) as [Hf Ht].
    assert (Hids : keepsIds op)
      by (destruct op; simpl in *; auto).
    rewrite (machine_ids_step op state Hids).
    destruct op as [e mi|i u|i|i|e x y|i|i s|i t|data]; auto.
    + split; apply in_or_app; left; assumption.
    + unfold references in Hdel.
      split; apply filter_In; (split; [assumption|]);
        apply negb_true_iff, eqb_string_false; tauto.
  - simpl in Hk. simpl. rewrite machineIds_addConnection. exact Hk.
Qed.

(** X8. The endpoints of the connections stay in the store: from a store
    in which every connection joins two machines it holds, every sequence
    of operations in which [addConnection] is only called with ids of
    machines the store holds at that time, and [updateMachine] does not
    rename, leads to such a store; [deleteMachine] takes the connections
    of the deleted machine with it. *)
Theorem no_dangling_connection_invariant :
  forall (ops : list Op) (state : MachineState),
    noDanglingConnection state ->
    keepsEndpointsRun ops state ->
    noDanglingConnection (applyOps ops state).
Proof.
  induction ops as [|op ops IH]; intros state Hnd Hrun; simpl.
  - exact Hnd.
  - destruct Hrun as [Hop Hrest]. apply IH; [|exact Hrest].
    apply noDangling_applyOp; assumption.
Qed.

Lemma no_dangling_connection_invariant_witness :
  let e := mkIdSeed 1700000000000 "k3x9q2m1z" in
  let ops := [ OpAddConnection e "machine-005" "machine-001";
               OpDeleteMachine "machine-003";
               OpUpdateMachineStatus "machine-001" stopped ] in
  noDanglingConnection (applyOps ops (loadInitialData initialState)).
Proof.
  intros e ops.
  apply (no_dangling_connection_invariant ops (loadInitialData initialState)).
  - intros c Hc. simpl in Hc.
    repeat (destruct Hc as [<-|Hc];
            [split; simpl; intuition congruence|]).
    destruct Hc.
  - simpl. intuition.
Defined.

Lemma findMachine_Some (i : string) (ms : list Machine) (m : Machine) :
  findMachine i ms = Some m -> In m ms /\ id m = i.
Proof.
  unfold findMachine. intros F. apply find_some in F.
  rewrite eqb_string_true in F. exact F.
Qed.

Lemma findMachine_None (i : string) (ms : list Machine) :
  findMachine i ms = None <-> ~ In i (map id ms).
Proof.
  unfold findMachine. split.
  - intros F Hin. apply in_map_iff in Hin. destruct Hin as (m & Hid & Hm).
    pose proof (find_none _ _ F m Hm) as H. simpl in H.
    apply eqb_string_false in H. exact (H Hid).
  - intros Habs. destruct (find _ ms) as [m|] eqn:F; [|reflexivity].
    apply find_some in F. rewrite eqb_string_true in F.
    exfalso. apply Habs. destruct F as [Hm <-]. apply in_map. exact Hm.
Qed.

(** X9. [ConnectionLine] draws a connection exactly when both of its
    endpoints are ids of machines in the list: then it finds a machine with
    the source id and one with the target id, and otherwise it returns
    [null]. *)
Theorem connectionLine_drawn_iff_endpoints_exist :
  forall (c : Connection) (ms : list Machine),
    (In (fromMachineId c) (map id ms) /\ In (toMachineId c) (map id ms) ->
     exists f t,
       connectionLineEndpoints c ms = Some (f, t)
       /\ In f ms /\ id f = fromMachineId c
       /\ In t ms /\ id t = toMachineId c)
    /\ (~ (In (fromMachineId c) (map id ms)
           /\ In (toMachineId c) (map id ms)) ->
        connectionLineEndpoints c ms = None).
Proof.
  intros c ms. unfold connectionLineEndpoints.
  destruct (findMachine (fromMachineId c) ms) as [f|] eqn:Ff;
    destruct (findMachine (toMachineId c) ms) as [t|] eqn:Ft.
  - split; [|intros H; exfalso; apply H].
    + intros _. exists f, t.
      destruct (findMachine_Some _ _ _ Ff), (findMachine_Some _ _ _ Ft). auto.
    + apply findMachine_Some in Ff, Ft. destruct Ff as [Hf <-], Ft as [Ht <-].
      split; apply in_map; assumption.
  - split; [|reflexivity].
    intros [_ H]. apply findMachine_None in Ft. contradiction.
  - split; [|reflexivity].
    intros [H _]. apply findMachine_None in Ff. contradiction.
  - split; [|reflexivity].
    intros [H _]. apply findMachine_None in Ff. contradiction.
Qed.

Lemma connectionLine_drawn_iff_endpoints_exist_witness :
  let gone := machines (deleteMachine "machine-002"
                          (mkState initialMachines [] None)) in
  connectionLineEndpoints
    (mkConnection "conn-001" "machine-001" "machine-002" None) gone = None
  /\ exists f t,
       connectionLineEndpoints
         (mkConnection "conn-003" "machine-003" "machine-004" None) gone
       = Some (f, t)
       /\ In f gone /\ id f = "machine-003"
       /\ In t gone /\ id t = "machine-004".
Proof.
  intros gone. split.
  - apply (proj2 (connectionLine_drawn_iff_endpoints_exist
                    (mkConnection "conn-001" "machine-001" "machine-002" None)
                    gone)).
    simpl. intuition discriminate.
  - apply (proj1 (connectionLine_drawn_iff_endpoints_exist
                    (mkConnection "conn-003" "machine-003" "machine-004" None)
                    gone)).
    simpl. intuition.
Defined.

(* ===================================================================== *)
(** * Properties of the canvas, the side panel and the toolbar            *)
(* ===================================================================== *)

Lemma selectionValid_ifSelected (body : string -> MachineState -> MachineState)
    (state : MachineState) :
  (forall i, selectedMachineId state = Some i ->
             selectionValid (body i state)) ->
  selectionValid state -> selectionValid (ifSelected body state).
Proof.
  intros Hbody Hv. unfold ifSelected.
  destruct (selectedMachineId state) as [i|] eqn:Hsel; [|exact Hv].
  destruct (truthy i); [apply Hbody; reflexivity | exact Hv].
Qed.

Lemma selectionValid_uiStep (ev : UiEvent) (state : MachineState) :
  isReset ev = false ->
  selectionValid state -> selectionValid (uiStep ev state).
Proof.
  intros Hev Hv.
  destruct ev as [n| | |formData| |newStatus|e newMachine|]; simpl;
    try discriminate.
  - destruct (nth_error (machines state) n) as [machine|] eqn:Hn;
      [|exact Hv].
    unfold handleMachineClick, selectionValid. simpl.
    destruct (selectedIs (selectedMachineId state) (id machine)); [exact I|].
    unfold machineIds. apply in_map. exact (nth_error_In _ _ Hn).
  - exact I.
  - unfold whenPanelShown. destruct (selectedMachine state); [exact I|exact Hv].
  - unfold whenPanelShown. destruct (selectedMachine state); [|exact Hv].
    apply selectionValid_ifSelected; [|exact Hv]. intros i _.
    refine (selectionValid_applyOp (OpUpdateMachine i _) state _ Hv).
    left. reflexivity.
  - unfold whenPanelShown. destruct (selectedMachine state); [|exact Hv].
    apply selectionValid_ifSelected; [|exact Hv]. intros i _. exact I.
  - unfold whenPanelShown. destruct (selectedMachine state); [|exact Hv].
    apply selectionValid_ifSelected; [|exact Hv]. intros i _.
    exact (selectionValid_applyOp (OpUpdateMachineStatus i newStatus)
             state I Hv).
  - unfold handleAddMachine.
    destruct (negb (truthy (f_name newMachine))); [exact Hv|].
    exact (selectionValid_applyOp (OpAddMachine e _) state I Hv).
Qed.

Lemma selectionValid_panel (state : MachineState) (i : string) :
  selectionValid state ->
  selectedMachineId state = Some i ->
  exists m, selectedMachine state = Some m /\ In m (machines state)
            /\ id m = i.
Proof.
  unfold selectionValid, selectedMachine. intros Hv Hsel. rewrite Hsel in *.
  destruct (findMachine i (machines state)) as [m|] eqn:F.
  - exists m. destruct (findMachine_Some _ _ _ F). auto.
  - apply findMachine_None in F. contradiction.
Qed.

(** X10. Whatever the operator does on the canvas, in the side panel and
    with the Add dialog, the selection stays valid: from a store with a
    valid selection, every sequence of clicks on machines and on the
    background, of Save, Delete, status and close in the panel, and of
    added machines, without a Reset, leads to a store whose selection is
    empty or is the id of a machine that the panel finds and shows. *)
Theorem ui_keeps_selection_valid :
  forall (evs : list UiEvent) (state : MachineState),
    selectionValid state ->
    forallb (fun ev => negb (isReset ev)) evs = true ->
    selectionValid (uiRun evs state)
    /\ forall i, selectedMachineId (uiRun evs state) = Some i ->
                 exists m, selectedMachine (uiRun evs state) = Some m
                           /\ In m (machines (uiRun evs state))
                           /\ id m = i.
Proof.
  intros evs state Hv Hevs.
  assert (H : selectionValid (uiRun evs state)).
  { revert state Hv. induction evs as [|ev evs IH]; intros state Hv;
      [exact Hv|].
    simpl in Hevs. apply andb_true_iff in Hevs. destruct Hevs as [Hev Hevs].
    apply negb_true_iff in Hev. simpl. apply (IH Hevs).
    apply selectionValid_uiStep; assumption. }
  split; [exact H|]. intros i. apply selectionValid_panel. exact H.
Qed.

Lemma ui_keeps_selection_valid_witness :
  let e := mkIdSeed 1700000000000 "k3x9q2m1z" in
  let evs :=
    [ ClickMachine 2; PanelStatus stopped;
      ToolbarAdd e (mkNewMachineForm "Mixer" processor 1 1);
      ClickMachine 8; PanelSave (mkFormData "Mixer A" "" 40 active);
      ClickMachine 0; PanelDelete; ClickMachine 7 ] in
  selectedMachineId (uiRun evs (loadInitialData initialState))
  = Some "machine-1700000000000-k3x9q2m1z"
  /\ selectionValid (uiRun evs (loadInitialData initialState)).
Proof.
  intros e evs. split; [reflexivity|].
  apply (ui_keeps_selection_valid evs (loadInitialData initialState)).
  - exact I.
  - reflexivity.
Defined.

(** X11. Delete in the panel is [deleteMachine] of the selected machine:
    the [selectMachine(null)] that follows it finds the selection already
    cleared.  Afterwards nothing is selected, no machine has the id and no
    connection has it as an endpoint.  With nothing selected Delete does
    nothing. *)
Theorem handleDelete_is_deleteMachine :
  forall (state : MachineState),
    (forall i, selectedMachineId state = Some i -> i <> "" ->
       handleDelete state = deleteMachine i state
       /\ selectedMachineId (handleDelete state) = None
       /\ ~ In i (machineIds (handleDelete state))
       /\ (forall c, In c (connections (handleDelete state)) ->
                     ~ references i c))
    /\ (selectedMachineId state = None -> handleDelete state = state).
Proof.
  intros state. split.
  - intros i Hsel Hi.
    assert (Heq : handleDelete state = deleteMachine i state).
    { unfold handleDelete, ifSelected. rewrite Hsel.
      unfold truthy. apply eqb_string_false in Hi. rewrite Hi. simpl.
      unfold selectMachine, deleteMachine. simpl. rewrite Hsel. simpl.
      rewrite String.eqb_refl. reflexivity. }
    rewrite Heq. split; [reflexivity|]. split; [|split].
    + simpl. rewrite Hsel. simpl. rewrite String.eqb_refl. reflexivity.
    + rewrite machineIds_deleteMachine. intros Hin. apply filter_In in Hin.
      rewrite String.eqb_refl in Hin. destruct Hin. discriminate.
    + intros c Hc. simpl in Hc. apply filter_In in Hc.
      apply keeps_unreferenced. exact (proj2 Hc).
  - intros Hsel. unfold handleDelete, ifSelected. rewrite Hsel. reflexivity.
Qed.

Lemma handleDelete_is_deleteMachine_witness :
  let state := selectMachine (Some "machine-003")
                 (loadInitialData initialState) in
  handleDelete state = deleteMachine "machine-003" state
  /\ selectedMachineId (handleDelete state) = None.
Proof.
  intros state.
  destruct (proj1 (handleDelete_is_deleteMachine state) "machine-003")
    as (H1 & H2 & _); [reflexivity | discriminate |].
  split; assumption.
Defined.

(* --------------------------------------------------------------------- *)
(** ** The numbers of the toolbar and of the legend                       *)
(* --------------------------------------------------------------------- *)

Lemma totalThroughput_from (ms : list Machine) (start : Q) :
  fold_left (fun sum m => sum + throughput m) ms start
  == start + totalThroughput ms.
Proof.
  unfold totalThroughput. revert start.
  induction ms as [|m ms IH]; intros start; simpl.
  - ring.
  - rewrite IH, (IH (0 + throughput m)). ring.
Qed.

Lemma totalThroughput_cons (m : Machine) (ms : list Machine) :
  totalThroughput (m :: ms) == throughput m + totalThroughput ms.
Proof.
  unfold totalThroughput at 1. simpl. rewrite totalThroughput_from. ring.
Qed.

Lemma totalThroughput_app (ms1 ms2 : list Machine) :
  totalThroughput (ms1 ++ ms2) == totalThroughput ms1 + totalThroughput ms2.
Proof.
  induction ms1 as [|m ms1 IH]; simpl.
  - unfold totalThroughput at 2. simpl. ring.
  - rewrite !totalThroughput_cons, IH. ring.
Qed.

Lemma statusCount_app (s : MachineStatus) (ms1 ms2 : list Machine) :
  statusCount s (ms1 ++ ms2) = (statusCount s ms1 + statusCount s ms2)%nat.
Proof. unfold statusCount. rewrite filter_app, length_app. reflexivity. Qed.

(** X12. The Add dialog refuses an empty name: the store is unchanged.
    With a name it adds one machine, idle and with throughput 0, on the
    floor ([y] = 0), and leaves the connections, the selection, the number
    of active machines and the total throughput of the toolbar as they
    were. *)
Theorem handleAddMachine_effect :
  forall (e : IdSeed) (newMachine : NewMachineForm) (state : MachineState),
    let state' := handleAddMachine e newMachine state in
    (f_name newMachine = "" -> state' = state)
    /\ (f_name newMachine <> "" ->
        (exists m,
           machines state' = (machines state ++ [m])%list
           /\ id m = machineId e /\ name m = f_name newMachine
           /\ status m = idle /\ throughput m = 0
           /\ position m = (f_x newMachine, 0, f_z newMachine))
        /\ connections state' = connections state
        /\ selectedMachineId state' = selectedMachineId state
        /\ activeMachines (machines state') = activeMachines (machines state)
        /\ totalThroughput (machines state')
           == totalThroughput (machines state)).
Proof.
  intros e newMachine state state'. subst state'. unfold handleAddMachine.
  split.
  - intros ->. reflexivity.
  - intros Hname. unfold truthy. apply eqb_string_false in Hname.
    rewrite Hname. simpl.
    split; [eexists; split; [reflexivity|]; simpl; auto|].
    split; [reflexivity|]. split; [reflexivity|]. split.
    + unfold activeMachines. rewrite statusCount_app. simpl.
      unfold statusCount. simpl. lia.
    + rewrite totalThroughput_app. unfold totalThroughput at 2. simpl. ring.
Qed.

Lemma handleAddMachine_effect_witness :
  let e := mkIdSeed 1700000000000 "k3x9q2m1z" in
  let state := loadInitialData initialState in
  handleAddMachine e (mkNewMachineForm "" processor 1 1) state = state
  /\ activeMachines
       (machines
          (handleAddMachine e (mkNewMachineForm "Mixer" processor 1 1) state))
     = 5%nat.
Proof.
  intros e state.
  destruct (handleAddMachine_effect e (mkNewMachineForm "" processor 1 1)
              state) as [Hempty _].
  destruct (handleAddMachine_effect e (mkNewMachineForm "Mixer" processor 1 1)
              state) as [_ Hadd].
  split; [apply Hempty; reflexivity|].
  destruct Hadd as (_ & _ & _ & Hactive & _); [discriminate|].
  rewrite Hactive. reflexivity.
Defined.

(** X13. The four numbers of the legend add up to the number of machines,
    so every machine is counted under exactly one status; the number of
    active machines of the toolbar is at most the number of machines; and
    the total throughput of the toolbar is at least 0 when every
    throughput is. *)
Theorem status_counts_partition :
  forall ms : list Machine,
    (statusCount active ms + statusCount idle ms
     + statusCount stopped ms + statusCount maintenance ms)%nat
    = List.length ms
    /\ (activeMachines ms <= List.length ms)%nat
    /\ (Forall (fun m => 0 <= throughput m) ms -> 0 <= totalThroughput ms).
Proof.
  intros ms.
  assert (Hsum : (statusCount active ms + statusCount idle ms
                  + statusCount stopped ms + statusCount maintenance ms)%nat
                 = List.length ms).
  { unfold statusCount. induction ms as [|m ms IH]; simpl; [reflexivity|].
    destruct (status m); simpl; lia. }
  split; [exact Hsum|]. split; [unfold activeMachines; lia|].
  clear Hsum. intros Hfloor. induction Hfloor as [|m ms Hm _ IH].
  - unfold totalThroughput. simpl. apply Qle_refl.
  - rewrite totalThroughput_cons.
    exact (Qplus_le_compat 0 (throughput m) 0 (totalThroughput ms) Hm IH).
Qed.

Lemma status_counts_partition_witness :
  (statusCount active initialMachines + statusCount idle initialMachines
   + statusCount stopped initialMachines
   + statusCount maintenance initialMachines)%nat = 8%nat
  /\ 0 <= totalThroughput initialMachines.
Proof.
  destruct (status_counts_partition initialMachines) as (Hsum & _ & Htotal).
  split; [exact Hsum|].
  apply Htotal. repeat constructor; unfold Qle; simpl; lia.
Defined.

(* ===================================================================== *)
(** * Properties of the feed hook, the poller and the timers              *)
(* ===================================================================== *)

Lemma settleAll_frame (results : list (option APIProductionResponse))
    (w : Poller.World) :
  Poller.intervalId (settleAll results w) = Poller.intervalId w
  /\ Poller.timers (settleAll results w) = Poller.timers w
  /\ Poller.fetches (settleAll results w) = Poller.fetches w
  /\ Poller.errors (settleAll results w)
     = (Poller.errors w + failures results)%nat.
Proof.
  unfold settleAll, failures. revert w.
  induction results as [|r results IH]; intros w; simpl.
  - repeat split. lia.
  - destruct (IH (Poller.fetchSettles r w)) as (H1 & H2 & H3 & H4).
    rewrite H1, H2, H3, H4. destruct r; simpl; repeat split; lia.
Qed.

Lemma settleAll_state (results : list (option APIProductionResponse))
    (w : Poller.World) :
  Poller.state (settleAll results w)
  = batchUpdateFromProductionData
      (List.concat (map batchOf (latestFirst results))) (Poller.state w).
Proof.
  unfold settleAll. revert w.
  induction results as [|r results IH]; intros w; simpl.
  - symmetry. apply batchUpdate_nil.
  - rewrite IH. destruct r as [data|]; simpl; [|reflexivity].
    rewrite map_app, concat_app. simpl. rewrite app_nil_r.
    exact (batchUpdate_app (batchOf data) _ (Poller.state w)).
Qed.

(** X14. Polling adds up to one batch.  After any series of fetches, the
    store is the store reconciled once with the batches of the responses
    put one after the other, the latest first: for each machine the latest
    response that names it decides.  A failed fetch adds one to the errors
    handed to [onError] and changes neither the store nor the interval, so
    polling goes on; the ids of the machines never change. *)
Theorem polling_is_one_batch :
  forall (results : list (option APIProductionResponse)) (w : Poller.World),
    let w' := settleAll results w in
    Poller.state w'
    = batchUpdateFromProductionData
        (List.concat (map batchOf (latestFirst results))) (Poller.state w)
    /\ machineIds (Poller.state w') = machineIds (Poller.state w)
    /\ Poller.errors w' = (Poller.errors w + failures results)%nat
    /\ Poller.intervalId w' = Poller.intervalId w
    /\ Poller.timers w' = Poller.timers w.
Proof.
  intros results w w'. subst w'.
  destruct (settleAll_frame results w) as (H1 & H2 & _ & H4).
  split; [apply settleAll_state|]. split; [|auto].
  rewrite settleAll_state. apply machineIds_batchUpdate.
Qed.

Lemma filter_fresh_timer (t : Timers) :
  timersOk t ->
  filter (fun j => negb (Nat.eqb j (nextTimer t))) (activeTimers t)
  = activeTimers t.
Proof.
  intros [Hpos Hact]. apply filter_all. intros j Hj.
  apply negb_true_iff, Nat.eqb_neq. specialize (Hact j Hj). lia.
Qed.

(** What [start] and then [stop] come to. *)
Lemma poller_stop_start (w : Poller.World) :
  timersOk (Poller.timers w) ->
  Poller.stop (Poller.start w)
  = Poller.mkWorld None
      (mkTimers (S (nextTimer (Poller.timers w)))
                (activeTimers (Poller.timers w)))
      (Poller.state w) (S (Poller.fetches w)) (Poller.errors w).
Proof.
  intros Hok. unfold Poller.start, Poller.stop. simpl.
  destruct (Nat.eqb_spec (nextTimer (Poller.timers w)) 0) as [H0|H0];
    [destruct Hok; lia|].
  unfold clearInterval. simpl. rewrite Nat.eqb_refl. simpl.
  rewrite (filter_fresh_timer _ Hok). reflexivity.
Qed.

(** X15. [start] and then [stop] leaves the timers of the page as they
    were: the interval that [start] made is cleared, one fetch (the
    immediate one) has been started, and the store is untouched.  [stop]
    on a poller without interval does nothing, so a second [stop] does
    nothing. *)
Theorem poller_start_stop :
  forall w : Poller.World,
    timersOk (Poller.timers w) ->
    let w' := Poller.stop (Poller.start w) in
    Poller.intervalId w' = None
    /\ activeTimers (Poller.timers w') = activeTimers (Poller.timers w)
    /\ Poller.fetches w' = S (Poller.fetches w)
    /\ Poller.state w' = Poller.state w
    /\ Poller.stop w' = w'.
Proof.
  intros w Hok w'. subst w'. rewrite (poller_stop_start w Hok). simpl.
  repeat split.
Qed.

Lemma poller_start_stop_witness :
  let w := Poller.mkWorld None (mkTimers 4 [3; 1]%nat)
             (loadInitialData initialState) 0 0 in
  timersOk (Poller.timers w)
  /\ activeTimers (Poller.timers (Poller.stop (Poller.start w))) = [3; 1]%nat.
Proof.
  intros w.
  assert (Hok : timersOk (Poller.timers w)).
  { split; [simpl; lia|]. simpl. intros i [<-|[<-|[]]]; lia. }
  split; [exact Hok|].
  exact (proj1 (proj2 (poller_start_stop w Hok))).
Defined.

(** X16. [start] does not look whether the poller is running.  Called on
    a poller whose interval [i] is live, it makes a second interval and
    forgets [i]: after the next [stop] the poller holds no interval, but
    [i] is still live and still fetches each time it fires, and no further
    [stop] clears it. *)
Theorem poller_restart_orphans_interval :
  forall (w : Poller.World) (i : nat),
    timersOk (Poller.timers w) ->
    Poller.intervalId w = Some i ->
    In i (activeTimers (Poller.timers w)) ->
    let w' := Poller.stop (Poller.start w) in
    Poller.intervalId w' = None
    /\ In i (activeTimers (Poller.timers w'))
    /\ Poller.fetches (Poller.timerFires i w') = S (Poller.fetches w')
    /\ In i (activeTimers (Poller.timers (Poller.stop w'))).
Proof.
  intros w i Hok Hid Hin w'.
  subst w'. rewrite (poller_stop_start w Hok).
  split; [reflexivity|]. split; [exact Hin|]. split.
  - unfold Poller.timerFires. simpl.
    replace (existsb (Nat.eqb i) (activeTimers (Poller.timers w)))
      with true; [reflexivity|].
    symmetry. apply existsb_exists. exists i.
    split; [exact Hin | apply Nat.eqb_refl].
  - exact Hin.
Qed.

Lemma poller_restart_orphans_interval_witness :
  let w := Poller.start (Poller.mkWorld None (mkTimers 1 [])
                           (loadInitialData initialState) 0 0) in
  let w' := Poller.stop (Poller.start w) in
  Poller.intervalId w = Some 1%nat
  /\ Poller.intervalId w' = None
  /\ In 1%nat (activeTimers (Poller.timers w')).
Proof.
  intros w w'.
  assert (Hok : timersOk (Poller.timers w)).
  { split; [simpl; lia|]. simpl. intros i [<-|[]]; lia. }
  destruct (poller_restart_orphans_interval w 1 Hok eq_refl
              (or_introl eq_refl)) as (H1 & H2 & _).
  split; [reflexivity|]. split; assumption.
Defined.

(* --------------------------------------------------------------------- *)
(** ** Starting and stopping the simulator                                *)
(* --------------------------------------------------------------------- *)

Section HookFacts.

(** The timers in use and the next id when the hook was mounted. *)
Variable others : list nat.
Variable first : nat.
Hypothesis first_positive : (0 < first)%nat.
Hypothesis others_below : forall j, In j others -> (0 < j < first)%nat.

Lemma hookInv_start (w : Hook.World) :
  hookInv others first w -> hookInv others first (Hook.startSimulation w).
Proof.
  intros [Hn [(Hs & Hr & Ha)|(Hs & i & Hr & Hi & Ha)]];
    unfold Hook.startSimulation; rewrite Hr; simpl.
  - split; [simpl; lia|]. right. split; [reflexivity|].
    exists (nextTimer (Hook.timers w)). simpl. rewrite Ha.
    repeat split; lia.
  - destruct (Nat.eqb_spec i 0) as [H0|H0]; [lia|]. simpl.
    split; [exact Hn|]. right. split; [exact Hs|]. exists i. auto.
Qed.

Lemma hookInv_stop (w : Hook.World) :
  hookInv others first w -> hookInv others first (Hook.stopSimulation w).
Proof.
  intros [Hn [(Hs & Hr & Ha)|(Hs & i & Hr & Hi & Ha)]];
    unfold Hook.stopSimulation; rewrite Hr; simpl.
  - split; [exact Hn|]. left. auto.
  - destruct (Nat.eqb_spec i 0) as [H0|H0]; [lia|]. simpl.
    split; [exact Hn|]. left. split; [reflexivity|]. split; [reflexivity|].
    unfold clearInterval. simpl. rewrite Ha. simpl.
    rewrite Nat.eqb_refl. simpl.
    apply filter_all. intros j Hj. apply negb_true_iff, Nat.eqb_neq.
    specialize (others_below j Hj). lia.
Qed.

Lemma hookInv_calls (cs : list Hook.Call) (w : Hook.World) :
  hookInv others first w -> hookInv others first (Hook.calls cs w).
Proof.
  unfold Hook.calls. revert w.
  induction cs as [|c cs IH]; intros w H; simpl; [exact H|].
  apply IH. destruct c; simpl.
  - apply hookInv_start. exact H.
  - apply hookInv_stop. exact H.
  - unfold Hook.toggleSimulation. destruct (Hook.isSimulating w).
    + apply hookInv_stop. exact H.
    + apply hookInv_start. exact H.
Qed.

End HookFacts.

(** X17. The simulator never runs two intervals.  From a hook that is
    stopped, after any sequence of [startSimulation], [stopSimulation] and
    [toggleSimulation] calls: [isSimulating] is true exactly when
    [intervalRef] holds an interval, that interval is the only timer the
    hook has added to those of the page, and a stopped hook has left the
    timers of the page as it found them. *)
Theorem simulation_has_one_interval :
  forall (cs : list Hook.Call) (t0 : Timers),
    timersOk t0 ->
    let w := Hook.calls cs (Hook.mkWorld false None t0) in
    (Hook.isSimulating w = true <-> Hook.intervalRef w <> None)
    /\ activeTimers (Hook.timers w)
       = match Hook.intervalRef w with
         | Some i => i :: activeTimers t0
         | None => activeTimers t0
         end.
Proof.
  intros cs t0 [Hpos Hact] w.
  assert (H : hookInv (activeTimers t0) (nextTimer t0) w).
  { apply hookInv_calls; [exact Hpos | exact Hact |].
    split; [simpl; lia|]. left. auto. }
  destruct H as [_ [(Hs & Hr & Ha)|(Hs & i & Hr & _ & Ha)]];
    rewrite Hs, Hr, Ha.
  - split; [|reflexivity]. split; [discriminate | congruence].
  - split; [|reflexivity]. split; [discriminate | reflexivity].
Qed.

Lemma simulation_has_one_interval_witness :
  let t0 := mkTimers 4 [3; 1]%nat in
  let w := Hook.calls [Hook.Start; Hook.Start; Hook.Toggle; Hook.Toggle;
                       Hook.Start] (Hook.mkWorld false None t0) in
  timersOk t0
  /\ Hook.intervalRef w = Some 5%nat
  /\ activeTimers (Hook.timers w) = [5; 3; 1]%nat.
Proof.
  intros t0 w.
  assert (Hok : timersOk t0).
  { split; [simpl; lia|]. simpl. intros i [<-|[<-|[]]]; lia. }
  split; [exact Hok|]. split; [reflexivity|].
  exact (proj2 (simulation_has_one_interval
                  [Hook.Start; Hook.Start; Hook.Toggle; Hook.Toggle;
                   Hook.Start] t0 Hok)).
Defined.

(* ===================================================================== *)
(** * Further properties of the simulator                                 *)
(* ===================================================================== *)

Lemma touches_refl (ids : list string) (state : MachineState) :
  touches ids state state.
Proof.
  exists (fun m => m). split.
  - intros m. unfold sameIdentity. repeat split; auto.
  - rewrite map_id. symmetry. apply state_eta.
Qed.

Lemma touches_trans (ids : list string) (s1 s2 s3 : MachineState) :
  touches ids s1 s2 -> touches ids s2 s3 -> touches ids s1 s3.
Proof.
  intros (g & Hg & ->) (h & Hh & ->). exists (fun m => h (g m)). split.
  - intros m. destruct (Hg m) as [(G1 & G2 & G3 & G4 & G5) Gout].
    destruct (Hh (g m)) as [(H1 & H2 & H3 & H4 & H5) Hout].
    split; [unfold sameIdentity; repeat split; congruence|].
    intros Hm. rewrite Hout; [exact (Gout Hm) | rewrite G1; exact Hm].
  - simpl. rewrite map_map. reflexivity.
Qed.

Lemma touches_more (ids ids' : list string) (s1 s2 : MachineState) :
  (forall i, In i ids -> In i ids') -> touches ids s1 s2 -> touches ids' s1 s2.
Proof.
  intros Hsub (g & Hg & ->). exists g. split; [|reflexivity].
  intros m. destruct (Hg m) as [Hs Hout]. split; [exact Hs|].
  intros Hm. apply Hout. intros Hin. exact (Hm (Hsub _ Hin)).
Qed.

Lemma touches_updateMachineStatus (i : string) (s : MachineStatus)
    (state : MachineState) :
  touches [i] state (updateMachineStatus i s state).
Proof.
  exists (fun m => if String.eqb (id m) i then withStatus m s else m).
  split; [|reflexivity]. intros m. case_eqb (id m) i.
  - split; [unfold sameIdentity; simpl; repeat split; auto|].
    intros Hout. exfalso. apply Hout. left. congruence.
  - unfold sameIdentity. repeat split; auto.
Qed.

Lemma touches_updateMachineThroughput (i : string) (t : Q)
    (state : MachineState) :
  touches [i] state (updateMachineThroughput i t state).
Proof.
  exists (fun m => if String.eqb (id m) i then withThroughput m t else m).
  split; [|reflexivity]. intros m. case_eqb (id m) i.
  - split; [unfold sameIdentity; simpl; repeat split; auto|].
    intros Hout. exfalso. apply Hout. left. congruence.
  - unfold sameIdentity. repeat split; auto.
Qed.

Section TickFacts.

Variable random : nat -> Q.
Variable config : SimulationConfig.

Lemma fluctuate_touches (machine : Machine) (w : World) :
  touches [id machine] (store w)
    (store (snd (fluctuate random config machine w))).
Proof.
  unfold fluctuate. destruct (status machine); simpl;
    try apply touches_refl.
  apply touches_updateMachineThroughput.
Qed.

Lemma simulateMachine_touches (machine : Machine) (w : World) :
  touches [id machine] (store w)
    (store (snd (simulateMachine random config machine w))).
Proof.
  unfold simulateMachine, bind, mathRandom. simpl.
  destruct (Qltb (random (drawn w)) (1 # 10)).
  - unfold generateRandomStatus, bind, mathRandom, ret, call. simpl.
    set (newStatus := if Qltb (85 # 100) (random (S (drawn w))) then _ else _).
    pose proof (touches_updateMachineStatus (id machine) newStatus (store w))
      as Hs.
    destruct newStatus; simpl.
    + eapply touches_trans; [exact Hs|].
      exact (fluctuate_touches machine (mkWorld _ _)).
    + eapply touches_trans; [exact Hs|]. apply touches_updateMachineThroughput.
    + eapply touches_trans; [exact Hs|]. apply touches_updateMachineThroughput.
    + eapply touches_trans; [exact Hs|]. apply touches_updateMachineThroughput.
  - exact (fluctuate_touches machine (mkWorld _ _)).
Qed.

Lemma tick_cons (machine : Machine) (rest : list Machine) (w : World) :
  tick random config (machine :: rest) w
  = tick random config rest (snd (simulateMachine random config machine w)).
Proof.
  unfold tick, simulateStep. simpl. unfold bind.
  destruct (simulateMachine random config machine w). reflexivity.
Qed.

Lemma tick_app (l1 l2 : list Machine) (w : World) :
  tick random config (l1 ++ l2) w
  = tick random config l2 (tick random config l1 w).
Proof.
  revert w. induction l1 as [|m l1 IH]; intros w; simpl.
  - reflexivity.
  - rewrite !tick_cons. apply IH.
Qed.

Lemma tick_touches (capturedMachines : list Machine) (w : World) :
  touches (map id capturedMachines) (store w)
    (store (tick random config capturedMachines w)).
Proof.
  revert w. induction capturedMachines as [|m rest IH]; intros w.
  - apply touches_refl.
  - rewrite tick_cons. eapply touches_trans.
    + eapply touches_more; [|apply simulateMachine_touches].
      intros i [<-|[]]. left. reflexivity.
    + eapply touches_more; [|apply IH]. intros i Hi. right. exact Hi.
Qed.

End TickFacts.

(** X18. A tick only writes status and throughput, and only of machines
    whose id is in the captured array.  The connections, the selection and
    the number and order of the machines are unchanged; the machine at
    each index keeps its id, name, position, type and description; and a
    machine whose id is not an id of the captured array (one added after
    the interval was started) is left exactly as it is. *)
Theorem tick_frame :
  forall (random : nat -> Q) (config : SimulationConfig)
         (capturedMachines : list Machine) (w : World),
    let state' := store (tick random config capturedMachines w) in
    connections state' = connections (store w)
    /\ selectedMachineId state' = selectedMachineId (store w)
    /\ List.length (machines state') = List.length (machines (store w))
    /\ forall (n : nat) (m : Machine),
         nth_error (machines (store w)) n = Some m ->
         exists m',
           nth_error (machines state') n = Some m'
           /\ sameIdentity m m'
           /\ (~ In (id m) (map id capturedMachines) -> m' = m).
Proof.
  intros random config capturedMachines w state'. subst state'.
  destruct (tick_touches random config capturedMachines w) as (g & Hg & ->).
  simpl. split; [reflexivity|]. split; [reflexivity|].
  split; [apply length_map|].
  intros n m Hn. exists (g m). rewrite nth_error_map, Hn.
  split; [reflexivity|]. exact (Hg m).
Qed.

Lemma tick_frame_witness :
  let random := drawsOf [ 5 # 100; 65 # 100; 1 # 100; 5 # 100; 75 # 100 ] in
  let extra := mkMachine "machine-900" "Mixer" active 40 (0, 0, 0) None None in
  let w := mkWorld (mkState (extra :: initialMachines) initialConnections None)
                   0 in
  nth_error (machines (store (tick random appConfig initialMachines w))) 0
  = Some extra.
Proof.
  intros random extra w.
  destruct (tick_frame random appConfig initialMachines w)
    as (_ & _ & _ & H).
  destruct (H 0%nat extra eq_refl) as (m' & Hn & _ & Hsame).
  rewrite Hn. f_equal. apply Hsame.
  simpl. intuition discriminate.
Defined.

Lemma stopped_in_store (i : string) (s : MachineStatus)
    (state : MachineState) (m : Machine) :
  In m (machines (updateMachineThroughput i 0
                    (updateMachineStatus i s state))) ->
  id m = i -> status m = s /\ throughput m = 0.
Proof.
  simpl. rewrite map_map. intros Hin Hid.
  apply in_map_iff in Hin. destruct Hin as (m0 & Hm & _). subst m.
  case_eqb (id m0) i.
  - simpl. rewrite E, String.eqb_refl. simpl. auto.
  - rewrite (proj2 (eqb_string_false _ _) E) in Hid. contradiction.
Qed.

(** X19. Stopped machines stand still.  If, in a tick, step 1 changes the
    status of a captured machine to stopped or to maintenance, and no later
    element of the captured array has the same id, then at the end of the
    tick every machine of the store with that id has the new status and a
    throughput of 0. *)
Theorem tick_stopped_means_zero :
  forall (random : nat -> Q) (config : SimulationConfig)
         (before after : list Machine) (machine : Machine) (w : World),
    let w1 := tick random config before w in
    let newStatus := drawnStatus random w1 in
    ~ In (id machine) (map id after) ->
    Qltb (random (drawn w1)) (1 # 10) = true ->
    newStatus = stopped \/ newStatus = maintenance ->
    forall m,
      In m (machines
              (store (tick random config (before ++ machine :: after) w))) ->
      id m = id machine ->
      status m = newStatus /\ throughput m = 0.
Proof.
  intros random config before after machine w w1 newStatus
         Hlast Hchange Hstop m Hin Hid.
  rewrite tick_app, tick_cons in Hin. fold w1 in Hin.
  assert (Hstep : store (snd (simulateMachine random config machine w1))
                  = updateMachineThroughput (id machine) 0
                      (updateMachineStatus (id machine) newStatus (store w1))).
  { unfold simulateMachine, bind, mathRandom. simpl. rewrite Hchange.
    unfold newStatus, drawnStatus in *.
    unfold generateRandomStatus, bind, mathRandom, ret, call in *.
    simpl in *.
    destruct Hstop as [-> | ->]; reflexivity. }
  destruct (tick_touches random config after
              (snd (simulateMachine random config machine w1)))
    as (g & Hg & Heq).
  rewrite Heq in Hin. simpl in Hin.
  apply in_map_iff in Hin. destruct Hin as (m0 & <- & Hm0).
  destruct (Hg m0) as [(Hgid & _) Hout].
  rewrite Hgid in Hid.
  rewrite Hout by (rewrite Hid; exact Hlast).
  rewrite Hstep in Hm0.
  exact (stopped_in_store (id machine) newStatus (store w1) m0 Hm0 Hid).
Qed.

Lemma tick_stopped_means_zero_witness :
  let random := drawsOf [ 1 # 2; 5 # 100; 65 # 100 ] in
  let feeder := mkMachine "m1" "Feeder" idle 30 (0, 0, 0) None None in
  let packer_ := mkMachine "m2" "Packer" active 80 (1, 0, 0) None None in
  let w := mkWorld (mkState [feeder; packer_] [] None) 0 in
  let m := mkMachine "m2" "Packer" stopped 0 (1, 0, 0) None None in
  In m (machines (store (tick random defaultConfig [feeder; packer_] w)))
  /\ status m = stopped /\ throughput m = 0.
Proof.
  intros random feeder packer_ w m.
  assert (Hin : In m (machines
                        (store (tick random defaultConfig
                                  ([feeder] ++ packer_ :: []) w))))
    by (right; left; vm_compute; reflexivity).
  split; [exact Hin|].
  refine (tick_stopped_means_zero random defaultConfig
            [feeder] [] packer_ w _ _ _ m Hin eq_refl).
  - intros [].
  - vm_compute. reflexivity.
  - left. vm_compute. reflexivity.
Defined.

Lemma fluctuation_bounds (r range : Q) :
  0 <= r -> r < 1 -> 0 <= range ->
  - range <= floor (r * range * 2) - range
  /\ floor (r * range * 2) - range <= range.
Proof.
  intros Hr0 Hr1 Hrange.
  assert (Hprod0 : 0 <= r * range) by (apply Qmult_le_0_compat; assumption).
  assert (Hprod1 : r * range <= 1 * range)
    by (apply Qmult_le_compat_r; [apply Qlt_le_weak; exact Hr1 | exact Hrange]).
  assert (Hfloor0 : 0 <= floor (r * range * 2)) by (apply floor_nonneg; lra).
  pose proof (Qfloor_le (r * range * 2)) as Hfloor1.
  unfold floor in *. split; lra.
Qed.

(** Every throughput of the store is at most [bound]. *)
Lemma ceiling_updateMachineThroughput (bound : Q) (i : string) (t : Q)
    (state : MachineState) :
  t <= bound ->
  Forall (fun m => throughput m <= bound) (machines state) ->
  Forall (fun m => throughput m <= bound)
         (machines (updateMachineThroughput i t state)).
Proof.
  simpl. intros Ht H. apply Forall_map. revert H. apply Forall_impl.
  intros m Hm. destruct (String.eqb (id m) i); [exact Ht | exact Hm].
Qed.

Lemma ceiling_updateMachineStatus (bound : Q) (i : string) (s : MachineStatus)
    (state : MachineState) :
  Forall (fun m => throughput m <= bound) (machines state) ->
  Forall (fun m => throughput m <= bound)
         (machines (updateMachineStatus i s state)).
Proof.
  simpl. intros H. apply Forall_map. revert H. apply Forall_impl.
  intros m Hm. destruct (String.eqb (id m) i); exact Hm.
Qed.

Section Ceiling.

Variable random : nat -> Q.
Variable config : SimulationConfig.
Variable bound : Q.
Hypothesis random_unit : unitInterval random.
Hypothesis range_nonneg : 0 <= fluctuationRange config.
Hypothesis bound_nonneg : 0 <= bound.

Lemma fluctuate_ceiling (machine : Machine) (w : World) :
  throughput machine + fluctuationRange config <= bound ->
  Forall (fun m => throughput m <= bound) (machines (store w)) ->
  Forall (fun m => throughput m <= bound)
    (machines (store (snd (fluctuate random config machine w)))).
Proof.
  intros Hm H. unfold fluctuate. destruct (status machine); simpl;
    try exact H.
  apply ceiling_updateMachineThroughput; [|exact H].
  destruct (random_unit (drawn w)) as [Hr0 Hr1].
  destruct (fluctuation_bounds _ _ Hr0 Hr1 range_nonneg) as [_ Hup].
  apply Q.max_lub; [exact bound_nonneg | lra].
Qed.

Lemma simulateMachine_ceiling (machine : Machine) (w : World) :
  throughput machine + fluctuationRange config <= bound ->
  Forall (fun m => throughput m <= bound) (machines (store w)) ->
  Forall (fun m => throughput m <= bound)
    (machines (store (snd (simulateMachine random config machine w)))).
Proof.
  intros Hm H. unfold simulateMachine, bind, mathRandom. simpl.
  destruct (Qltb (random (drawn w)) (1 # 10)).
  - unfold generateRandomStatus, bind, mathRandom, ret, call. simpl.
    set (newStatus := if Qltb (85 # 100) (random (S (drawn w))) then _ else _).
    pose proof (ceiling_updateMachineStatus bound (id machine) newStatus
                  (store w) H) as Hs.
    destruct newStatus.
    + exact (fluctuate_ceiling machine (mkWorld _ _) Hm Hs).
    + refine (ceiling_updateMachineThroughput bound _ _ _ _ Hs).
      pose proof (Qfloor_le (throughput machine * (3 # 10))) as Hfl.
      unfold floor. lra.
    + exact (ceiling_updateMachineThroughput bound _ _ _ bound_nonneg Hs).
    + exact (ceiling_updateMachineThroughput bound _ _ _ bound_nonneg Hs).
  - exact (fluctuate_ceiling machine (mkWorld _ _) Hm H).
Qed.

Lemma tick_ceiling (capturedMachines : list Machine) (w : World) :
  Forall (fun m => throughput m + fluctuationRange config <= bound)
         capturedMachines ->
  Forall (fun m => throughput m <= bound) (machines (store w)) ->
  Forall (fun m => throughput m <= bound)
    (machines (store (tick random config capturedMachines w))).
Proof.
  intros Hc. revert w.
  induction Hc as [|machine rest Hm _ IH]; intros w H.
  - exact H.
  - rewrite tick_cons. apply IH. apply simulateMachine_ceiling; assumption.
Qed.

End Ceiling.

(** X20. The interval does not let throughput drift.  [setInterval] keeps
    running the closure it was given, so every tick computes from the
    throughputs captured at the start: with [Math.random()] in [0, 1) and
    an amplitude of at least 0, if [bound] is at least 0, at least every
    throughput of the store, and at least every captured throughput plus
    the amplitude, then after any number of ticks of the interval every
    throughput of the store is still at most [bound]. *)
Theorem interval_throughput_ceiling :
  forall (random : nat -> Q) (config : SimulationConfig) (bound : Q)
         (capturedMachines : list Machine) (n : nat) (w : World),
    unitInterval random ->
    0 <= fluctuationRange config ->
    0 <= bound ->
    Forall (fun m => throughput m + fluctuationRange config <= bound)
           capturedMachines ->
    Forall (fun m => throughput m <= bound) (machines (store w)) ->
    Forall (fun m => throughput m <= bound)
      (machines (store (runInterval random config n capturedMachines w))).
Proof.
  intros random config bound capturedMachines n w Hunit Hrange Hbound Hc.
  revert w. induction n as [|n IH]; intros w H; simpl.
  - exact H.
  - apply IH. apply tick_ceiling; assumption.
Qed.

Lemma interval_throughput_ceiling_witness :
  let random := drawsOf [ 99 # 100; 99 # 100; 99 # 100; 99 # 100 ] in
  let w := mkWorld (loadInitialData initialState) 0 in
  unitInterval random
  /\ Forall (fun m => throughput m <= 135)
       (machines (store (runInterval random appConfig 50
                           (machines (store w)) w))).
Proof.
  intros random w.
  assert (Hunit : unitInterval random).
  { intros k. unfold random, drawsOf.
    do 5 (destruct k as [|k]; [simpl; split; unfold Qle, Qlt; simpl; lia|]).
    simpl. destruct k; split; unfold Qle, Qlt; simpl; lia. }
  split; [exact Hunit|].
  apply (interval_throughput_ceiling random appConfig 135
           (machines (store w)) 50 w Hunit).
  - unfold Qle. simpl. lia.
  - unfold Qle. simpl. lia.
  - repeat constructor; unfold Qle; simpl; lia.
  - repeat constructor; unfold Qle; simpl; lia.
Defined.

(** X21. The fluctuation is bounded by the amplitude.  With
    [Math.random()] in [0, 1) and an amplitude of at least 0, the step
    that fluctuates a machine captured as active writes, for every machine
    of the store with its id, a throughput that is at least 0, at least
    the captured throughput minus the amplitude, and at most the larger of
    0 and the captured throughput plus the amplitude. *)
Theorem fluctuate_within_amplitude :
  forall (random : nat -> Q) (config : SimulationConfig)
         (machine : Machine) (w : World),
    unitInterval random ->
    0 <= fluctuationRange config ->
    status machine = active ->
    forall m,
      In m (machines (store (snd (fluctuate random config machine w)))) ->
      id m = id machine ->
      0 <= throughput m
      /\ throughput machine - fluctuationRange config <= throughput m
      /\ throughput m
         <= Qmax 0 (throughput machine + fluctuationRange config).
Proof.
  intros random config machine w Hunit Hrange Hactive m Hin Hid.
  unfold fluctuate in Hin. rewrite Hactive in Hin. simpl in Hin.
  apply in_map_iff in Hin. destruct Hin as (m0 & <- & _).
  destruct (String.eqb (id m0) (id machine)) eqn:E.
  - simpl.
    destruct (Hunit (drawn w)) as [Hr0 Hr1].
    destruct (fluctuation_bounds _ _ Hr0 Hr1 Hrange) as [Hlow Hup].
    split; [apply Q.le_max_l|]. split.
    + eapply Qle_trans; [|apply Q.le_max_r]. lra.
    + apply Q.max_le_compat_l. lra.
  - apply eqb_string_false in E. contradiction.
Qed.

Lemma fluctuate_within_amplitude_witness :
  let random := drawsOf [ 99 # 100 ] in
  let machine := nth 0 initialMachines
                   (mkMachine "" "" idle 0 (0, 0, 0) None None) in
  let w := mkWorld (loadInitialData initialState) 0 in
  let m := mkMachine "machine-001" "Raw Material Feeder" active 134
             (-6, 0, -4) (Some conveyor)
             (Some "Feeder untuk bahan baku awal") in
  In m (machines (store (snd (fluctuate random appConfig machine w))))
  /\ 120 - 15 <= throughput m
  /\ throughput m <= Qmax 0 (120 + 15).
Proof.
  intros random machine w m.
  assert (Hunit : unitInterval random).
  { intros k. unfold random, drawsOf.
    destruct k as [|k]; [simpl; split; unfold Qle, Qlt; simpl; lia|].
    simpl. destruct k; split; unfold Qle, Qlt; simpl; lia. }
  assert (Hin : In m (machines
                        (store (snd (fluctuate random appConfig machine w)))))
    by (left; reflexivity).
  split; [exact Hin|].
  exact (proj2 (fluctuate_within_amplitude random appConfig machine w Hunit
                  (Qle_bool_imp_le 0 15 eq_refl) eq_refl m Hin eq_refl)).
Defined.

(* ===================================================================== *)
(** * Further properties of the push feed adapter                         *)
(* ===================================================================== *)

(** X22. [disconnect] does not end the reconnecting.  It closes the socket
    and forgets it, but leaves the [onclose] handler in place: when the
    close event of that socket arrives, a reconnect is scheduled as after a
    lost connection (as long as the budget is not used up), and when its
    timer fires the adapter holds a new socket. *)
Theorem disconnect_still_reconnects :
  forall (this : ProductionWebSocket) (h : nat),
    (reconnectAttempts this < maxReconnectAttempts this)%nat ->
    ws (fst (disconnect this)) = None
    /\ scheduledReconnects
         (snd (runEvents [CallDisconnect; SocketClose] this)) = 1%nat
    /\ ws (fst (runEvents [CallDisconnect; SocketClose; TimerFires h] this))
       = Some h.
Proof.
  intros this h Hlt. split; [reflexivity|].
  apply Nat.ltb_lt in Hlt.
  unfold runEvents, handle, disconnect, onclose, attemptReconnect,
    scheduledReconnects.
  simpl. rewrite Hlt. simpl. 
  destruct (ws this); simpl; auto.
Qed.

Lemma disconnect_still_reconnects_witness :
  let this := fst (runEvents [CallConnect 1; SocketOpen]
                     newProductionWebSocket) in
  scheduledReconnects (snd (runEvents [CallDisconnect; SocketClose] this))
  = 1%nat.
Proof.
  intros this.
  refine (proj1 (proj2 (disconnect_still_reconnects this 2 _))).
  simpl. lia.
Defined.

Lemma onclose_schedules (this : ProductionWebSocket) :
  ((reconnectAttempts this < maxReconnectAttempts this)%nat
   /\ scheduledReconnects (snd (onclose this)) = 1%nat
   /\ reconnectAttempts (fst (onclose this)) = S (reconnectAttempts this)
   /\ maxReconnectAttempts (fst (onclose this)) = maxReconnectAttempts this)
  \/ ((maxReconnectAttempts this <= reconnectAttempts this)%nat
      /\ scheduledReconnects (snd (onclose this)) = 0%nat
      /\ fst (onclose this) = this).
Proof.
  unfold onclose, attemptReconnect.
  destruct (Nat.ltb_spec (reconnectAttempts this)
              (maxReconnectAttempts this)); simpl.
  - left. repeat split. exact H.
  - right. repeat split. exact H.
Qed.

Lemma closes_schedule (n : nat) (this : ProductionWebSocket) :
  scheduledReconnects (snd (runEvents (repeat SocketClose n) this))
  = Nat.min n (maxReconnectAttempts this - reconnectAttempts this).
Proof.
  revert this. induction n as [|n IH]; intros this.
  - reflexivity.
  - change (repeat SocketClose (S n)) with (SocketClose :: repeat SocketClose n).
    rewrite runEvents_cons.
    change (handle SocketClose this) with (onclose this).
    cbn [snd]. rewrite scheduledReconnects_app, IH.
    destruct (onclose_schedules this) as [(Hlt & -> & -> & ->)|(Hle & -> & ->)];
      lia.
Qed.

(** X23. The budget is counted exactly.  [n] close events in a row
    schedule as many reconnects as the budget has left, that is the
    smaller of [n] and [maxReconnectAttempts - reconnectAttempts]; right
    after a socket has opened the budget is full again, whatever it was. *)
Theorem closes_schedule_what_is_left :
  forall (n : nat) (this : ProductionWebSocket),
    scheduledReconnects (snd (runEvents (repeat SocketClose n) this))
    = Nat.min n (maxReconnectAttempts this - reconnectAttempts this)
    /\ scheduledReconnects
         (snd (runEvents (SocketOpen :: repeat SocketClose n) this))
       = Nat.min n (maxReconnectAttempts this).
Proof.
  intros n this. split; [apply closes_schedule|].
  rewrite runEvents_cons. cbn [snd].
  rewrite scheduledReconnects_app, closes_schedule.
  change (handle SocketOpen this) with (onopen this).
  change (scheduledReconnects (snd (onopen this))) with 0%nat.
  change (maxReconnectAttempts (fst (onopen this)))
    with (maxReconnectAttempts this).
  change (reconnectAttempts (fst (onopen this))) with 0%nat.
  rewrite Nat.sub_0_r. reflexivity.
Qed.

Lemma reconnectInterval_handle (ev : Event) (this : ProductionWebSocket) :
  reconnectInterval (fst (handle ev this)) = reconnectInterval this
  /\ forall d, In (SetTimeoutConnect d) (snd (handle ev this)) ->
               d = reconnectInterval this.
Proof.
  destruct ev as [h| |o|h| |p| |]; simpl.
  - split; [reflexivity|]. intros d [H|[]]. discriminate.
  - split; [reflexivity|]. intros d. destruct (ws this); simpl;
      intuition discriminate.
  - split; [reflexivity|]. intros d. destruct o; simpl; intuition discriminate.
  - split; [reflexivity|]. intros d [H|[]]. discriminate.
  - split; [reflexivity|]. intros d [H|[]]. discriminate.
  - split; [reflexivity|]. intros d. destruct p; simpl; intuition discriminate.
  - split; [reflexivity|]. intros d. simpl. intuition discriminate.
  - unfold onclose, attemptReconnect.
    destruct (Nat.ltb (reconnectAttempts this) (maxReconnectAttempts this));
      simpl.
    + split; [reflexivity|]. intros d [H|[H|[H|[]]]]; try discriminate.
      congruence.
    + split; [reflexivity|]. intros d. intuition discriminate.
Qed.

(** X24. The backoff is fixed.  Every reconnect that the adapter
    schedules, in any sequence of events, is scheduled with the delay
    [reconnectInterval], which no event changes: 3000 ms for the adapter as
    constructed, whatever the number of failed attempts. *)
Theorem reconnect_delay_is_fixed :
  forall (evs : list Event) (this : ProductionWebSocket),
    reconnectInterval (fst (runEvents evs this)) = reconnectInterval this
    /\ forall d, In (SetTimeoutConnect d) (snd (runEvents evs this)) ->
                 d = reconnectInterval this.
Proof.
  induction evs as [|ev evs IH]; intros this.
  - simpl. split; [reflexivity | intros d []].
  - rewrite runEvents_cons. simpl.
    destruct (reconnectInterval_handle ev this) as [Hi Hd].
    destruct (IH (fst (handle ev this))) as [Hi' Hd'].
    split; [congruence|].
    intros d Hin. apply in_app_or in Hin. destruct Hin as [Hin|Hin].
    + exact (Hd d Hin).
    + rewrite <- Hi. exact (Hd' d Hin).
Qed.

Lemma reconnect_delay_is_fixed_witness :
  let evs := [CallConnect 1; SocketClose; TimerFires 2; SocketClose] in
  reconnectInterval (fst (runEvents evs newProductionWebSocket)) = 3000%N
  /\ filter isReconnect (snd (runEvents evs newProductionWebSocket))
     = [SetTimeoutConnect 3000; SetTimeoutConnect 3000].
Proof.
  intros evs. split; [|reflexivity].
  exact (proj1 (reconnect_delay_is_fixed evs newProductionWebSocket)).
Defined.

Lemma deliveredData_app (e1 e2 : list Effect) :
  deliveredData (e1 ++ e2) = (deliveredData e1 + deliveredData e2)%nat.
Proof. unfold deliveredData. rewrite filter_app, length_app. reflexivity. Qed.

(** X25. Every well-formed message reaches [onData] once, and nothing
    else does: in any sequence of events the number of [onData] calls is
    the number of messages that parse.  A message that does not parse is
    dropped, and no message changes the adapter. *)
Theorem messages_are_delivered_once :
  forall (evs : list Event) (this : ProductionWebSocket),
    deliveredData (snd (runEvents evs this)) = parsedMessages evs
    /\ forall parsed, fst (handle (SocketMessage parsed) this) = this.
Proof.
  intros evs this. split; [|reflexivity].
  revert this. induction evs as [|ev evs IH]; intros this.
  - reflexivity.
  - rewrite runEvents_cons. simpl snd. rewrite deliveredData_app, IH.
    unfold parsedMessages. simpl.
    destruct ev as [h| |o|h| |p| |]; simpl; try reflexivity.
    + destruct (ws this); reflexivity.
    + destruct o; reflexivity.
    + destruct p; reflexivity.
    + unfold onclose, attemptReconnect.
      destruct (Nat.ltb (reconnectAttempts this) (maxReconnectAttempts this));
        reflexivity.
Qed.

(* ===================================================================== *)
(** * Generated ids on the loaded line                                    *)
(* ===================================================================== *)

Lemma hasDash_app (s1 s2 : string) :
  hasDash (s1 ++ String "-"%char s2) = true.
Proof.
  induction s1 as [|c s1 IH].
  - reflexivity.
  - change (hasDash (String c s1 ++ String "-"%char s2))
      with (Ascii.eqb c "-"%char || hasDash (s1 ++ String "-"%char s2)).
    rewrite IH. apply orb_true_r.
Qed.

(** A generated id has a [-] after [machine-]; the ids of the loaded line
    have none. *)
Lemma machineId_not_initial (e : IdSeed) :
  ~ In (machineId e) (map id initialMachines).
Proof.
  assert (H : forall rest, hasDash rest = false ->
                           machineId e <> "machine-" ++ rest).
  { intros rest Hrest Heq. unfold machineId in Heq.
    simpl in Heq. injection Heq as Heq.
    apply (f_equal hasDash) in Heq.
    rewrite hasDash_app, Hrest in Heq. discriminate. }
  intros Hin. simpl in Hin.
  repeat (destruct Hin as [Hin|Hin];
          [symmetry in Hin;
           match type of Hin with
           | _ = String _ (String _ (String _ (String _
                   (String _ (String _ (String _ (String _ ?rest))))))) =>
               exact (H rest eq_refl Hin)
           end|]).
  exact Hin.
Qed.

(** X26. On the loaded line the generated ids are always new: a machine
    added with [addMachine] never gets the id of one of the eight machines
    of the line, so after any calls whose (time, suffix) pairs are pairwise
    different the ids of all machines are pairwise distinct. *)
Theorem loaded_line_ids_distinct :
  forall (calls : list (IdSeed * MachineInit)) (state : MachineState),
    NoDup (map fst calls) ->
    NoDup (machineIds (addMachines calls (loadInitialData state))).
Proof.
  intros calls state Hseeds. apply addMachines_NoDup.
  - unfold machineIds. simpl.
    repeat (constructor; [simpl; intuition discriminate|]). constructor.
  - apply distinct_seeds_generate_fresh_ids; [exact Hseeds|].
    intros call _. apply machineId_not_initial.
Qed.

Lemma loaded_line_ids_distinct_witness :
  let unit1 := mkMachineInit "Mixer" idle 0 (0, 0, 0) (Some processor) None in
  let calls := [ (mkIdSeed 1700000000000 "k3x9q2m1z", unit1);
                 (mkIdSeed 1700000000000 "p0o9i8u7y", unit1) ] in
  NoDup (machineIds (addMachines calls (loadInitialData initialState))).
Proof.
  intros unit1 calls.
  apply (loaded_line_ids_distinct calls initialState).
  repeat (constructor; [simpl; intuition congruence|]). constructor.
Defined.
